(** * The Kotlin worker wrapper ([backend/backendWrapper/app/main.py])

    A shallow embedding of the FastAPI wrapper that supervises one child
    process and forwards each request's query text to it over stdin/stdout.

    Definitions:
    - [Codec]: Python [bytes] and [str], the UTF-8 codec and [rstrip].
    - [Worker]: what [asyncio] lets the wrapper do with a child process.
    - Section [Wrapper]: the module's globals and its coroutines
      [start_kotlin], [stop_kotlin] and [send], in a state-and-exception
      monad with fuel for the [while True:] loop.  [_drain_stderr] only
      consumes the child's stderr; it appears as the task [start_kotlin]
      creates.
    - [Stub]: a line-oriented child over simulated pipes, for the scenarios.
    - [Loop]: several [send] calls interleaved by the event loop, with
      [io_lock] as an [asyncio.Lock] and its queue of waiters.

    Properties: the codec, the supervisor, the gateway, the scenarios, and
    mutual exclusion of concurrent calls. *)

From Stdlib Require Import ZArith List String DecimalString Lia Bool Arith.
From stdpp Require Import base list.
Import ListNotations.

(** ** Python values *)

Module Codec.
Local Open Scope Z_scope.

(** A [bytes] object: a sequence of integers in [0, 256). *)
Definition bytes := list Z.

(** A [str] object: a sequence of Unicode code points. *)
Definition str := list Z.

Definition NEWLINE : Z := 10.

(** The code points of an ASCII literal of the source. *)
Definition lit (s : string) : list Z :=
  map (fun a => Z.of_N (Ascii.N_of_ascii a)) (list_ascii_of_string s).

(** [str.encode("utf-8")] on one code point; [None] is [UnicodeEncodeError]
    (lone surrogates, and integers that are no code point at all). *)
Definition utf8_encode_cp (ch : Z) : option bytes :=
  if ch <? 0 then None
  else if ch <? 0x80 then Some [ch]
  else if ch <? 0x800 then
    Some [Z.lor 0xC0 (Z.shiftr ch 6); Z.lor 0x80 (Z.land ch 0x3F)]
  else if (0xD800 <=? ch) && (ch <=? 0xDFFF) then None
  else if ch <? 0x10000 then
    Some [Z.lor 0xE0 (Z.shiftr ch 12);
          Z.lor 0x80 (Z.land (Z.shiftr ch 6) 0x3F);
          Z.lor 0x80 (Z.land ch 0x3F)]
  else if ch <? 0x110000 then
    Some [Z.lor 0xF0 (Z.shiftr ch 18);
          Z.lor 0x80 (Z.land (Z.shiftr ch 12) 0x3F);
          Z.lor 0x80 (Z.land (Z.shiftr ch 6) 0x3F);
          Z.lor 0x80 (Z.land ch 0x3F)]
  else None.

Fixpoint utf8_encode (s : str) : option bytes :=
  match s with
  | [] => Some []
  | ch :: rest =>
      match utf8_encode_cp ch, utf8_encode rest with
      | Some b, Some bs => Some (b ++ bs)
      | _, _ => None
      end
  end.

Definition is_continuation_byte (b : Z) : bool := (0x80 <=? b) && (b <? 0xC0).

Definition REPLACEMENT : Z := 0xFFFD.

(** [bytes.decode("utf-8", errors="replace")]: every maximal ill-formed
    prefix becomes one U+FFFD and decoding resumes right after it. *)
Fixpoint utf8_decode_replace (bs : bytes) : str :=
  match bs with
  | [] => []
  | b1 :: r1 =>
      if b1 <? 0x80 then b1 :: utf8_decode_replace r1
      else if b1 <? 0xC2 then REPLACEMENT :: utf8_decode_replace r1
      else if b1 <? 0xE0 then
        match r1 with
        | [] => [REPLACEMENT]
        | b2 :: r2 =>
            if is_continuation_byte b2
            then (Z.shiftl b1 6 + b2 - (Z.shiftl 0xC0 6 + 0x80))
                   :: utf8_decode_replace r2
            else REPLACEMENT :: utf8_decode_replace r1
        end
      else if b1 <? 0xF0 then
        match r1 with
        | [] => [REPLACEMENT]
        | b2 :: r2 =>
            if negb (is_continuation_byte b2)
               || (if b2 <? 0xA0 then b1 =? 0xE0 else b1 =? 0xED)
            then REPLACEMENT :: utf8_decode_replace r1
            else
              match r2 with
              | [] => [REPLACEMENT]
              | b3 :: r3 =>
                  if is_continuation_byte b3
                  then (Z.shiftl b1 12 + Z.shiftl b2 6 + b3
                        - (Z.shiftl 0xE0 12 + Z.shiftl 0x80 6 + 0x80))
                         :: utf8_decode_replace r3
                  else REPLACEMENT :: utf8_decode_replace r2
              end
        end
      else if b1 <? 0xF5 then
        match r1 with
        | [] => [REPLACEMENT]
        | b2 :: r2 =>
            if negb (is_continuation_byte b2)
               || (if b2 <? 0x90 then b1 =? 0xF0 else b1 =? 0xF4)
            then REPLACEMENT :: utf8_decode_replace r1
            else
              match r2 with
              | [] => [REPLACEMENT]
              | b3 :: r3 =>
                  if negb (is_continuation_byte b3)
                  then REPLACEMENT :: utf8_decode_replace r2
                  else
                    match r3 with
                    | [] => [REPLACEMENT]
                    | b4 :: r4 =>
                        if is_continuation_byte b4
                        then (Z.shiftl b1 18 + Z.shiftl b2 12 + Z.shiftl b3 6 + b4
                              - (Z.shiftl 0xF0 18 + Z.shiftl 0x80 12
                                 + Z.shiftl 0x80 6 + 0x80))
                               :: utf8_decode_replace r4
                        else REPLACEMENT :: utf8_decode_replace r3
                    end
              end
        end
      else REPLACEMENT :: utf8_decode_replace r1
  end.

(** [s.rstrip("\n")]: drop every trailing U+000A. *)
Fixpoint rstrip_newline (s : str) : str :=
  match s with
  | [] => []
  | ch :: rest =>
      match rstrip_newline rest with
      | [] => if ch =? NEWLINE then [] else [ch]
      | kept => ch :: kept
      end
  end.

(** Number of newline bytes, that is of protocol lines, in a payload. *)
Definition count_newlines (bs : list Z) : nat :=
  List.length (List.filter (fun b => Z.eqb b NEWLINE) bs).

End Codec.

Import Codec.


(** ** Exceptions *)

(** The [OSError] subclasses that pipe I/O, timers and process creation raise. *)
Inductive OSError :=
| TimeoutError
| BrokenPipeError
| ConnectionResetError
| FileNotFoundError
| ProcessLookupError.

Inductive exn :=
| OSErr (e : OSError)
| UnboundLocalError (name : string)
| UnicodeEncodeError
| AssertionError
| AttributeError (attr : string)
| HTTPException (status_code : Z) (detail : string).

(** ** The child process as the event loop sees it *)

(** What [asyncio] lets the wrapper do with a process object whose state has
    type [W].  Timeouts are in seconds.  The child's own behaviour (when it
    answers, when it exits) is whatever the instance says. *)
Class Worker (W : Type) := {
  (** [asyncio.create_subprocess_exec] on [KOTLIN_CMD], at the n-th attempt:
      the new process object, or the error of a failed launch. *)
  create_subprocess_exec : nat -> OSError + W;
  (** [proc.returncode]: [None] while the event loop has not seen it exit. *)
  returncode : W -> option Z;
  (** [proc.stdin.write(payload)] followed by [await proc.stdin.drain()]. *)
  stdin_write_drain : bytes -> W -> option OSError * W;
  (** [await asyncio.wait_for(proc.stdout.readline(), timeout)]: a line with
      its newline, what is left of the stream at end-of-stream (possibly
      [b'']), or the error raised ([TimeoutError] when the timer fires). *)
  stdout_readline : Z -> W -> (OSError + bytes) * W;
  (** [proc.terminate()]. *)
  terminate : W -> W;
  (** [proc.kill()]. *)
  kill : W -> W;
  (** [await asyncio.wait_for(proc.wait(), timeout)]: the exit code, or [None]
      for [TimeoutError]. *)
  wait_for_exit : Z -> W -> option Z * W;
  (** [await proc.wait()]: the exit code; [None] when it never returns. *)
  wait_exit : W -> option Z * W
}.

(** ** Coroutines: state, exceptions and fuel *)

Inductive result (A : Type) :=
| Returned (a : A)
| Raised (e : exn)
| Pending.   (* suspended for ever, or still running when the fuel ran out *)

Arguments Returned {A} a.
Arguments Raised {A} e.
Arguments Pending {A}.

Definition M (S A : Type) : Type := S -> result A * S.

Definition ret {S A} (a : A) : M S A := fun s => (Returned a, s).

Definition bind {S A B} (m : M S A) (k : A -> M S B) : M S B :=
  fun s =>
    match m s with
    | (Returned a, s') => k a s'
    | (Raised e, s') => (Raised e, s')
    | (Pending, s') => (Pending, s')
    end.

Definition raise {S A} (e : exn) : M S A := fun s => (Raised e, s).

Definition pending {S A} : M S A := fun s => (Pending, s).

Definition gets {S A} (f : S -> A) : M S A := fun s => (Returned (f s), s).

Definition modify {S} (f : S -> S) : M S unit := fun s => (Returned tt, f s).

Declare Scope coro_scope.
Delimit Scope coro_scope with coro.
Notation "'let*' x ':=' m 'in' k" := (bind m (fun x => k))
  (at level 10, x name, m at level 100, k at level 200) : coro_scope.
Notation "m ';;' k" := (bind m (fun _ => k))
  (at level 100, k at level 200, right associativity) : coro_scope.

(** [try: body / except ...: handler]: [handlers e] is the matching [except]
    clause, [None] when no clause matches and [e] propagates. *)
Definition try_except {S A} (body : M S A) (handlers : exn -> option (M S A)) : M S A :=
  fun s =>
    match body s with
    | (Raised e, s') =>
        match handlers e with
        | Some h => h s'
        | None => (Raised e, s')
        end
    | other => other
    end.

(** [try: body / finally: cleanup], for a body that may still be running. *)
Definition try_finally {S A} (body : M S A) (cleanup : S -> S) : M S A :=
  fun s =>
    match body s with
    | (Returned a, s') => (Returned a, cleanup s')
    | (Raised e, s') => (Raised e, cleanup s')
    | (Pending, s') => (Pending, s')
    end.

(** [while cond: body], with fuel standing for the iterations observed. *)
Fixpoint while_ {S} (fuel : nat) (cond : M S bool) (body : M S unit) : M S unit :=
  match fuel with
  | O => pending
  | Datatypes.S fuel' =>
      bind cond (fun c =>
        if c then bind body (fun _ => while_ fuel' cond body) else ret tt)
  end.

(** ** The module's globals and what it does to the outside world *)

(** Observable actions, recorded newest first. *)
Inductive event :=
| EvSpawn (n : nat)                        (* create_subprocess_exec succeeded *)
| EvCreateTask (n : nat)                   (* create_task(_drain_stderr(proc)) *)
| EvPrint (text : string)                  (* print("NO") *)
| EvPrintBytes (line : bytes)              (* print(line) *)
| EvTerminate
| EvKill
| EvWaitFor (timeout : Z) (code : option Z)
| EvWait (code : option Z)
| EvWrite (payload : bytes) (err : option OSError)
| EvReadline (timeout : Z) (outcome : OSError + bytes)
| EvAcquire
| EvRelease.

Record state (W : Type) := mkState {
  proc : option W;              (* proc: Optional[asyncio.subprocess.Process] *)
  io_lock : bool;               (* io_lock.locked() *)
  stderr_task : option nat;     (* app.state.stderr_task: which launch it drains *)
  launches : nat;               (* create_subprocess_exec attempts so far *)
  log : list event
}.

Arguments mkState {W}.
Arguments proc {W}.
Arguments io_lock {W}.
Arguments stderr_task {W}.
Arguments launches {W}.
Arguments log {W}.

(** The JSON object [{"out": ...}] that [send] returns. *)
Record response := mkResponse { out : str }.

(** Local variables of one [send] call; [None] is an unbound name. *)
Record locals := mkLocals { line : option bytes }.

Section Wrapper.
Context {W : Type} `{Worker W}.
Local Open Scope coro_scope.
Local Open Scope string_scope.

Definition set_proc (p : option W) (s : state W) : state W :=
  mkState p (io_lock s) (stderr_task s) (launches s) (log s).

Definition set_io_lock (b : bool) (s : state W) : state W :=
  mkState (proc s) b (stderr_task s) (launches s) (log s).

Definition emit (e : event) (s : state W) : state W :=
  mkState (proc s) (io_lock s) (stderr_task s) (launches s) (e :: log s).

Definition print (text : string) : M (state W) unit := modify (emit (EvPrint text)).

(** An attribute access [proc.x] on the global: [AttributeError] on [None]. *)
Definition on_proc {A} (attr : string) (f : W -> result A * W * event) : M (state W) A :=
  fun s =>
    match proc s with
    | None => (Raised (AttributeError attr), s)
    | Some w => let '(r, w', e) := f w in (r, emit e (set_proc (Some w') s))
    end.

Definition proc_stdin_write_drain (payload : bytes) : M (state W) unit :=
  on_proc "stdin" (fun w =>
    let '(err, w') := stdin_write_drain payload w in
    (match err with Some e => Raised (OSErr e) | None => Returned tt end,
     w', EvWrite payload err)).

Definition proc_stdout_readline (timeout : Z) : M (state W) bytes :=
  on_proc "stdout" (fun w =>
    let '(r, w') := stdout_readline timeout w in
    (match r with inl e => Raised (OSErr e) | inr data => Returned data end,
     w', EvReadline timeout r)).

Definition proc_terminate : M (state W) unit :=
  on_proc "terminate" (fun w => (Returned tt, terminate w, EvTerminate)).

Definition proc_kill : M (state W) unit :=
  on_proc "kill" (fun w => (Returned tt, kill w, EvKill)).

Definition proc_wait_for (timeout : Z) : M (state W) Z :=
  on_proc "wait" (fun w =>
    let '(r, w') := wait_for_exit timeout w in
    (match r with Some code => Returned code | None => Raised (OSErr TimeoutError) end,
     w', EvWaitFor timeout r)).

Definition proc_wait : M (state W) Z :=
  on_proc "wait" (fun w =>
    let '(r, w') := wait_exit w in
    (match r with Some code => Returned code | None => Pending end, w', EvWait r)).

(** [proc is not None and proc.returncode is None] *)
Definition running (s : state W) : bool :=
  match proc s with
  | Some w => match returncode w with None => true | Some _ => false end
  | None => false
  end.

(** Lines 31-42 of [start_kotlin]: launch the child, bind it to [proc] and
    start the task that drains its stderr. *)
Definition launch : M (state W) unit :=
  fun s =>
    let n := launches s in
    match create_subprocess_exec n with
    | inl e => (Raised (OSErr e), mkState (proc s) (io_lock s) (stderr_task s) (S n) (log s))
    | inr w => (Returned tt,
                mkState (Some w) (io_lock s) (Some n) (S n)
                        (EvCreateTask n :: EvSpawn n :: log s))
    end.

(** [async def start_kotlin()] *)
Definition start_kotlin : M (state W) unit :=
  let* live := gets running in
  if live then print "NO" else launch.

(** Calling [start_kotlin] [n] times in a row. *)
Fixpoint start_kotlin_times (n : nat) : M (state W) unit :=
  match n with
  | O => ret tt
  | S n' => bind start_kotlin (fun _ => start_kotlin_times n')
  end.

(** [async def stop_kotlin()] *)
Definition stop_kotlin : M (state W) unit :=
  let* p := gets proc in
  match p with
  | None => ret tt
  | Some w =>
      (match returncode w with
       | None =>
           proc_terminate ;;
           try_except
             (let* _ := proc_wait_for 2 in ret tt)
             (fun e => match e with
                       | OSErr TimeoutError => Some (proc_kill ;; let* _ := proc_wait in ret tt)
                       | _ => None
                       end)
       | Some _ => ret tt
       end) ;;
      modify (set_proc None)
  end.

(** [@app.on_event("startup")] and [@app.on_event("shutdown")] *)
Definition on_startup : M (state W) unit := start_kotlin.

Definition on_shutdown : M (state W) unit := stop_kotlin.

(** [async with io_lock:]; a caller that finds the lock taken stays suspended. *)
Definition acquired (s : state W) : state W := emit EvAcquire (set_io_lock true s).

Definition acquire : M (state W) unit :=
  fun s => if io_lock s then (Pending, s) else (Returned tt, acquired s).

Definition release (s : state W) : state W := emit EvRelease (set_io_lock false s).

Definition async_with_io_lock {A} (body : M (state W) A) : M (state W) A :=
  acquire ;; try_finally body release.

(** Code of [send] that touches the globals, run inside [send]'s frame. *)
Definition global {A} (m : M (state W) A) : M (locals * state W) A :=
  fun '(l, s) => let '(r, s') := m s in (r, (l, s')).

(** A block of [send] with its local names, all unbound on entry. *)
Definition frame {A} (m : M (locals * state W) A) : M (state W) A :=
  fun s => let '(r, (_, s')) := m (mkLocals None, s) in (r, s').

Definition load_line : M (locals * state W) bytes :=
  fun '(l, s) =>
    match line l with
    | Some b => (Returned b, (l, s))
    | None => (Raised (UnboundLocalError "line"), (l, s))
    end.

Definition store_line (b : bytes) : M (locals * state W) unit :=
  fun '(_, s) => (Returned tt, (mkLocals (Some b), s)).

(** [(q + "\n").encode("utf-8")] *)
Definition encode_payload (q : str) : M (locals * state W) bytes :=
  match utf8_encode (q ++ [NEWLINE])%list with
  | Some payload => ret payload
  | None => raise UnicodeEncodeError
  end.

(** [{"out": line.decode("utf-8", errors="replace").rstrip("\n")}] *)
Definition out_of (l : bytes) : response :=
  mkResponse (rstrip_newline (utf8_decode_replace l)).

Definition code_text (code : Z) : string := NilZero.string_of_int (Z.to_int code).

(** Lines 94-96: send the query as one line. *)
Definition write_query (q : str) : M (locals * state W) unit :=
  let* payload := encode_payload q in
  global (proc_stdin_write_drain payload).

(** Line 99: read one line of response. *)
Definition first_read : M (locals * state W) unit :=
  let* first := global (proc_stdout_readline 5) in
  store_line first.

(** Lines 101-102: the body of the [while True:] loop. *)
Definition loop_body : M (locals * state W) unit :=
  let* l := load_line in
  global (modify (emit (EvPrintBytes l))) ;;
  let* l := load_line in
  let* more := global (proc_stdout_readline 5) in
  store_line (l ++ more)%list.

(** Lines 103-106: what follows the loop. *)
Definition after_loop : M (locals * state W) response :=
  let* l := load_line in
  match l with
  | [] => raise (HTTPException 500 "Kotlin process produced no output (EOF).")
  | _ => ret (out_of l)
  end.

(** The [try:] block of [send] (lines 93-106). *)
Definition send_try (fuel : nat) (q : str) : M (locals * state W) response :=
  write_query q ;;
  first_read ;;
  while_ fuel (ret true) loop_body ;;
  after_loop.

(** The [except] clauses of [send] (lines 108-111). *)
Definition send_except (e : exn) : option (M (locals * state W) response) :=
  match e with
  | OSErr TimeoutError => Some (let* l := load_line in ret (out_of l))
  | OSErr BrokenPipeError =>
      Some (raise (HTTPException 500 "Kotlin process stdin closed (BrokenPipe)."))
  | _ => None
  end.

(** An exception [e] leaves the [try:] block: the matching clause runs, or
    [e] propagates. *)
Definition handled (e : exn) : M (locals * state W) response :=
  match send_except e with
  | Some handler => handler
  | None => raise e
  end.

(** Lines 83-88: the assertions and the exit-code check.  The child is
    created with its three streams as pipes, so [proc.stdin] and
    [proc.stdout] are never [None]; only [proc] itself can be. *)
Definition check_proc : M (state W) unit :=
  let* p := gets proc in
  match p with
  | None => raise AssertionError
  | Some w =>
      match returncode w with
      | Some code =>
          raise (HTTPException 500 ("Kotlin process exited with code " ++ code_text code))
      | None => ret tt
      end
  end.

(** The state after stream traffic: the child moved to [w], [evs] logged. *)
Definition after_io (w : W) (evs : list event) (s : state W) : state W :=
  mkState (Some w) (io_lock s) (stderr_task s) (launches s) (evs ++ log s)%list.

(** How the [try:] block can end: never by a [return], and only by an
    exception of the codec, of an attribute access or of the streams. *)
Definition raised_in_try (l : locals) (e : exn) (l' : locals) (s' : state W) : Prop :=
  (e = UnicodeEncodeError /\ l' = l)
  \/ (exists attr, e = AttributeError attr)
  \/ (exists oe payload, e = OSErr oe /\ l' = l
        /\ exists older, log s' = EvWrite payload (Some oe) :: older)
  \/ (exists oe, e = OSErr oe /\ l' = l
        /\ exists older, log s' = EvReadline 5 (inl oe) :: older)
  \/ (exists oe b, e = OSErr oe /\ line l' = Some b
        /\ exists older, log s' = EvReadline 5 (inl oe) :: older).

(** Successive [readline] calls on the child's stdout return the lines [ls]. *)
Inductive reads : W -> list bytes -> W -> Prop :=
| reads_nil w : reads w [] w
| reads_cons w w1 w2 l ls :
    stdout_readline 5 w = (inr l, w1) -> reads w1 ls w2 -> reads w (l :: ls) w2.

(** What the loop logs, on top of [acc], while it appends the lines [ls] to
    the buffer [b]. *)
Fixpoint loop_events (b : bytes) (ls : list bytes) (acc : list event) : list event :=
  match ls with
  | [] => acc
  | l :: rest => loop_events (b ++ l)%list rest (EvReadline 5 (inr l) :: EvPrintBytes b :: acc)
  end.

(** Number of launches and of stream writes in a log. *)
Definition spawned (evs : list event) : nat :=
  List.length (List.filter (fun e => match e with EvSpawn _ => true | _ => false end) evs).

Definition written (evs : list event) : list bytes :=
  flat_map (fun e => match e with EvWrite payload _ => [payload] | _ => [] end) evs.

(** Lines 92-111: the [try:] statement with its handlers, in its frame. *)
Definition exchange (fuel : nat) (q : str) : M (state W) response :=
  frame (try_except (send_try fuel q) send_except).

(** [async def send(q)], the handler of [GET /send]. *)
Definition send (fuel : nat) (q : str) : M (state W) response :=
  start_kotlin ;;
  check_proc ;;
  async_with_io_lock (exchange fuel q).

End Wrapper.

(** ** A stub child over simulated pipes

    A line-oriented child: it reads stdin line by line and, for each line,
    writes [reply] to stdout and possibly exits.  The pipes are simulated the
    way [asyncio.StreamReader] presents them: [readline] returns the first
    buffered line, the remainder at end-of-stream, and times out otherwise. *)

Module Stub.
Local Open Scope Z_scope.

Record reaction := mkReaction {
  reply : bytes;                (* written to stdout *)
  then_exit : option Z          (* exit code, when the line makes it exit *)
}.

Record child := mkChild {
  program : bytes -> reaction;  (* what it does with one input line *)
  heeds_sigterm : bool;
  stdin_partial : bytes;        (* received after the last newline *)
  stdout_buffer : bytes;        (* written by the child, not yet read *)
  stdout_eof : bool;
  exit_code : option Z
}.

Definition exited (c : child) : bool :=
  match exit_code c with Some _ => true | None => false end.

Definition exit_with (code : Z) (c : child) : child :=
  mkChild (program c) (heeds_sigterm c) (stdin_partial c) (stdout_buffer c) true (Some code).

(** The child consumes one input line. *)
Definition react (c : child) : child :=
  let r := program c (stdin_partial c) in
  let c' := mkChild (program c) (heeds_sigterm c) [] (stdout_buffer c ++ reply r)
                    (stdout_eof c) (exit_code c) in
  match then_exit r with
  | Some code => exit_with code c'
  | None => c'
  end.

(** Bytes arrive on stdin; a child that has exited reads nothing more. *)
Fixpoint feed (payload : bytes) (c : child) : child :=
  match payload with
  | [] => c
  | b :: rest =>
      if exited c then c
      else if b =? NEWLINE then feed rest (react c)
      else feed rest (mkChild (program c) (heeds_sigterm c) (stdin_partial c ++ [b])
                              (stdout_buffer c) (stdout_eof c) (exit_code c))
  end.

(** The first line of a buffer, newline included, and what follows it. *)
Fixpoint split_line (buf : bytes) : option (bytes * bytes) :=
  match buf with
  | [] => None
  | b :: rest =>
      if b =? NEWLINE then Some ([b], rest)
      else match split_line rest with
           | Some (l, rest') => Some (b :: l, rest')
           | None => None
           end
  end.

Definition set_stdout_buffer (buf : bytes) (c : child) : child :=
  mkChild (program c) (heeds_sigterm c) (stdin_partial c) buf (stdout_eof c) (exit_code c).

Definition readline (c : child) : (OSError + bytes) * child :=
  match split_line (stdout_buffer c) with
  | Some (l, rest) => (inr l, set_stdout_buffer rest c)
  | None =>
      if stdout_eof c then (inr (stdout_buffer c), set_stdout_buffer [] c)
      else (inl TimeoutError, c)
  end.

Definition write_drain (payload : bytes) (c : child) : option OSError * child :=
  if exited c then (Some BrokenPipeError, c) else (None, feed payload c).

Definition sigterm (c : child) : child :=
  if exited c then c else if heeds_sigterm c then exit_with (-15) c else c.

Definition sigkill (c : child) : child :=
  if exited c then c else exit_with (-9) c.

(** A freshly launched child running [prog]. *)
Definition fresh (prog : bytes -> reaction) (heeds : bool) : child :=
  mkChild prog heeds [] [] false None.

(** The [Worker] whose n-th launch is [boot n]. *)
Definition worker (boot : nat -> OSError + child) : Worker child := {|
  create_subprocess_exec := boot;
  returncode := exit_code;
  stdin_write_drain := write_drain;
  stdout_readline := fun _ => readline;
  terminate := sigterm;
  kill := sigkill;
  wait_for_exit := fun _ c => (exit_code c, c);
  wait_exit := fun c => (exit_code c, c)
|}.

(** Replies ["ECHO:" + line + "\\n"] to every line. *)
Definition echo (input : bytes) : reaction :=
  mkReaction (lit "ECHO:" ++ input ++ [NEWLINE]) None.

(** Never writes anything. *)
Definition mute (input : bytes) : reaction := mkReaction [] None.

(** Exits with code 1 on its first line, without a reply. *)
Definition crash (input : bytes) : reaction := mkReaction [] (Some 1).


(** The [Worker] every launch of which starts a child running [prog]. *)
Definition launching (prog : bytes -> reaction) : Worker child :=
  worker (fun _ => inr (fresh prog true)).

(** The module's globals right after import: no process, lock free. *)
Definition at_import : state child := mkState None false None 0 [].

(** The globals once the startup hook has launched [c]. *)
Definition serving (c : child) : state child :=
  mkState (Some c) false (Some 0%nat) 1 [EvCreateTask 0; EvSpawn 0].

End Stub.

(** ** Several [send] calls on one event loop

    Each call is a task that runs from one suspension point to the next;
    the event loop picks which task moves.  [io_lock] is an [asyncio.Lock]:
    a task that finds it taken, or finds others queued, appends a future to
    the waiters and sleeps until [release] marks that future done. *)

Module Loop.

(** Where a task stands inside the [try:] block. *)
Inductive try_pc := TWrite | TFirstRead | TLoop.

Inductive pc :=
| AtStart                             (* line 82, before start_kotlin's test *)
| Launching                           (* line 31, awaiting create_subprocess_exec *)
| AtCheck                             (* lines 83-88 *)
| AtAcquire                           (* line 91 *)
| Waiting                             (* inside io_lock.acquire() *)
| InTry (k : try_pc) (l : locals)     (* lines 93-102, holding the lock *)
| Done (r : result response).

Record task := mkTask { query : str; at_pc : pc }.

Record config (W : Type) := mkConfig {
  tasks : list task;
  waiters : list (nat * bool);   (* io_lock._waiters: owner of each future, and done() *)
  glob : state W;
  trace : list (nat * event)     (* which task did what, newest first *)
}.

Arguments mkConfig {W}.
Arguments tasks {W}.
Arguments waiters {W}.
Arguments glob {W}.
Arguments trace {W}.

(** [Lock._wake_up_first] *)
Definition wake_up_first (ws : list (nat * bool)) : list (nat * bool) :=
  match ws with
  | (t, _) :: rest => (t, true) :: rest
  | [] => []
  end.

Definition woken (t : nat) (ws : list (nat * bool)) : bool :=
  existsb (fun w => Nat.eqb (fst w) t && snd w) ws.

Definition remove_waiter (t : nat) (ws : list (nat * bool)) : list (nat * bool) :=
  List.filter (fun w => negb (Nat.eqb (fst w) t)) ws.

(** The block that follows; the loop is followed by itself, since it has no
    exit and the lines after it are never reached. *)
Definition try_next (k : try_pc) : try_pc :=
  match k with
  | TWrite => TFirstRead
  | TFirstRead => TLoop
  | TLoop => TLoop
  end.

(** Where a task stands with respect to the lock, and kinds of events. *)
Definition in_try (p : pc) : bool :=
  match p with InTry _ _ => true | _ => false end.

Definition before_try (p : pc) : bool :=
  match p with
  | AtStart | Launching | AtCheck | AtAcquire | Waiting => true
  | _ => false
  end.

Definition is_done (p : pc) : bool :=
  match p with Done _ => true | _ => false end.

Definition is_lock_event (e : event) : bool :=
  match e with EvAcquire | EvRelease => true | _ => false end.

(** Futures of the waiters queue that are done but not yet consumed. *)
Definition done_count (ws : list (nat * bool)) : nat :=
  List.length (List.filter snd ws).

Definition is_stream_io (e : event) : bool :=
  match e with
  | EvWrite _ _ | EvReadline _ _ => true
  | _ => false
  end.

Section Steps.
Context {W : Type} `{Worker W}.
Local Open Scope string_scope.

Definition try_block (k : try_pc) (q : str) : M (locals * state W) unit :=
  match k with
  | TWrite => write_query q
  | TFirstRead => first_read
  | TLoop => loop_body
  end.

(** One move of task [t], from its suspension point to the next one. *)
Definition task_step (t : nat) (q : str) (p : pc) (ws : list (nat * bool)) (s : state W)
  : option (pc * list (nat * bool) * state W) :=
  match p with
  | AtStart =>
      if running s then Some (AtCheck, ws, emit (EvPrint "NO") s)
      else Some (Launching, ws, s)
  | Launching =>
      match launch s with
      | (Returned _, s') => Some (AtCheck, ws, s')
      | (Raised e, s') => Some (Done (Raised e), ws, s')
      | (Pending, _) => None
      end
  | AtCheck =>
      match check_proc s with
      | (Returned _, s') => Some (AtAcquire, ws, s')
      | (Raised e, s') => Some (Done (Raised e), ws, s')
      | (Pending, _) => None
      end
  | AtAcquire =>
      if negb (io_lock s) && match ws with [] => true | _ => false end
      then Some (InTry TWrite (mkLocals None), ws, acquired s)
      else Some (Waiting, (ws ++ [(t, false)])%list, s)
  | Waiting =>
      if woken t ws
      then Some (InTry TWrite (mkLocals None), remove_waiter t ws, acquired s)
      else None
  | InTry k l =>
      match try_block k q (l, s) with
      | (Returned _, (l', s')) => Some (InTry (try_next k) l', ws, s')
      | (Raised e, ls) =>
          let '(r, (_, s'')) := handled e ls in
          Some (Done r, wake_up_first ws, release s'')
      | (Pending, _) => None
      end
  | Done _ => None
  end.

(** The events a move added to the log. *)
Definition new_events (s s' : state W) : list event :=
  firstn (List.length (log s') - List.length (log s)) (log s').

Definition step (t : nat) (c : config W) : option (config W) :=
  match tasks c !! t with
  | None => None
  | Some tk =>
      match task_step t (query tk) (at_pc tk) (waiters c) (glob c) with
      | None => None
      | Some (p', ws', s') =>
          Some (mkConfig (<[t := mkTask (query tk) p']> (tasks c)) ws' s'
                         (map (pair t) (new_events (glob c) s') ++ trace c)%list)
      end
  end.

(** The event loop follows a schedule; a task that cannot move is skipped. *)
Fixpoint run (schedule : list nat) (c : config W) : config W :=
  match schedule with
  | [] => c
  | t :: rest => run rest (match step t c with Some c' => c' | None => c end)
  end.

(** The four kinds of move, by what they do to the lock: [evs] are the
    events of the move, newest first. *)
Inductive step_kind (t : nat) (p p' : pc) (ws ws' : list (nat * bool))
          (s s' : state W) (evs : list event) : Prop :=
| move_outside :
    before_try p = true ->
    before_try p' = true \/ is_done p' = true ->
    Forall (fun e => is_lock_event e = false /\ is_stream_io e = false) evs ->
    io_lock s' = io_lock s ->
    done_count ws' = done_count ws ->
    step_kind t p p' ws ws' s s' evs
| move_acquire :
    before_try p = true ->
    in_try p' = true ->
    evs = [EvAcquire] ->
    (io_lock s = false /\ ws = [] /\ ws' = []) \/ (woken t ws = true /\ ws' = remove_waiter t ws) ->
    io_lock s' = true ->
    step_kind t p p' ws ws' s s' evs
| move_inside :
    in_try p = true ->
    in_try p' = true ->
    Forall (fun e => is_lock_event e = false) evs ->
    io_lock s' = io_lock s ->
    ws' = ws ->
    step_kind t p p' ws ws' s s' evs
| move_release (evs0 : list event) :
    in_try p = true ->
    is_done p' = true ->
    evs = EvRelease :: evs0 ->
    Forall (fun e => is_lock_event e = false) evs0 ->
    io_lock s' = false ->
    ws' = wake_up_first ws ->
    step_kind t p p' ws ws' s s' evs.

(** Calls [send(q)] for each [q] of [qs] arrive while [proc] is [p], after
    [n] launches, with the lock free as [asyncio.Lock()] creates it. *)
Definition init (qs : list str) (p : option W) (n : nat) : config W :=
  mkConfig (map (fun q => mkTask q AtStart) qs) [] (mkState p false None n []) [].

(** A single call on the event loop, and what it can reach on its own. *)
Definition solo (q : str) (p : pc) (s : state W) (tr : list (nat * event)) : config W :=
  mkConfig [mkTask q p] [] s tr.

Definition solo_reaches (q : str) (p : pc) (s : state W) (p' : pc) (s' : state W) : Prop :=
  forall tr, exists k tr', run (replicate k 0) (solo q p s tr) = solo q p' s' tr'.

End Steps.

(** *** Reading a trace *)

(** Replays a trace from its oldest event and tells who holds the lock at
    the end; [None] when some task acquired a lock that was held, released
    one it did not hold, or touched the child's streams without holding it. *)
Fixpoint holder_after (tr : list (nat * event)) : option (option nat) :=
  match tr with
  | [] => Some None
  | (t, e) :: older =>
      match holder_after older with
      | None => None
      | Some h =>
          match e with
          | EvAcquire => match h with None => Some (Some t) | Some _ => None end
          | EvRelease =>
              match h with
              | Some u => if Nat.eqb u t then Some None else None
              | None => None
              end
          | EvWrite _ _ | EvReadline _ _ =>
              match h with
              | Some u => if Nat.eqb u t then Some h else None
              | None => None
              end
          | _ => Some h
          end
      end
  end.

(** The task behind each stream operation, newest first. *)
Definition io_tasks (tr : list (nat * event)) : list nat :=
  map fst (List.filter (fun te => is_stream_io (snd te)) tr).

(** The task behind each acquisition of the lock, newest first. *)
Definition acquirers (tr : list (nat * event)) : list nat :=
  map fst (List.filter (fun te => match snd te with EvAcquire => true | _ => false end) tr).

(** A task's entries are consecutive: nothing of another task in between. *)
Definition contiguous (l : list nat) : Prop :=
  forall i j k t u, i <= j -> j <= k ->
    l !! i = Some t -> l !! k = Some t -> l !! j = Some u -> u = t.

(** *** The invariant of the event loop *)

(** The stream operations seen so far, given who holds the lock: the
    holder's come last and in one run; the runs follow the acquisitions. *)
Definition io_shape (h : option nat) (tr : list (nat * event)) : Prop :=
  match h with
  | Some u =>
      exists k older earlier,
        io_tasks tr = (replicate k u ++ older)%list
        /\ (u ∉ older) /\ contiguous older
        /\ acquirers tr = u :: earlier
        /\ sublist (remove_dups older) earlier
  | None =>
      contiguous (io_tasks tr)
      /\ sublist (remove_dups (io_tasks tr)) (acquirers tr)
  end.

Record invariant {W : Type} (c : config W) (h : option nat) : Prop := mkInvariant {
  inv_holder : holder_after (trace c) = Some h;
  inv_in_try : forall t tk, tasks c !! t = Some tk -> in_try (at_pc tk) = true -> h = Some t;
  inv_lock : io_lock (glob c) = false -> h = None;
  inv_woken : match h with
              | Some _ => done_count (waiters c) = 0
              | None => done_count (waiters c) <= 1
              end;
  inv_fresh : forall t tk, tasks c !! t = Some tk -> before_try (at_pc tk) = true ->
                           (t ∉ acquirers (trace c)) /\ (t ∉ io_tasks (trace c));
  inv_once : NoDup (acquirers (trace c));
  inv_shape : io_shape h (trace c)
}.

End Loop.

(** ** The stderr drain *)

(** What one [await p.stderr.readline()] does. *)
Inductive readline_outcome :=
| Line (data : bytes)    (* a line; at end-of-stream what is left, then [b''] *)
| Fails (e : exn)
| Blocks.                (* nothing arrives and the stream stays open *)

(** The child's stderr, as the drain task sees it. *)
Class Stderr (E : Type) := {
  stderr_readline : E -> readline_outcome * E
}.

(** [while True:] around a body that may [break]: the body tells whether it
    leaves the loop. *)
Fixpoint while_true_break {S} (fuel : nat) (body : M S bool) : M S unit :=
  match fuel with
  | O => pending
  | Datatypes.S fuel' =>
      bind body (fun leave => if leave then ret tt else while_true_break fuel' body)
  end.

Section Drain.
Context {E : Type} `{Stderr E}.
Local Open Scope coro_scope.

Definition p_stderr_readline : M E bytes :=
  fun e =>
    match stderr_readline e with
    | (Line data, e') => (Returned data, e')
    | (Fails x, e') => (Raised x, e')
    | (Blocks, e') => (Pending, e')
    end.

(** [async def _drain_stderr(p)].  The child is created with stderr as a
    pipe, so the assertion on [p.stderr] holds; each line is dropped. *)
Definition _drain_stderr (fuel : nat) : M E unit :=
  while_true_break fuel
    (let* line := p_stderr_readline in
     match line with
     | [] => ret true
     | _ => ret false
     end).

(** Successive [readline] calls on stderr return the non-empty lines [ls]. *)
Inductive drains : E -> list bytes -> E -> Prop :=
| drains_nil e : drains e [] e
| drains_cons e e1 e2 b l ls :
    stderr_readline e = (Line (b :: l), e1) -> drains e1 ls e2 ->
    drains e ((b :: l) :: ls) e2.

End Drain.

(** A stderr pipe: the lines written and not yet read, and whether the
    child has closed its end. *)
Record pipe := mkPipe { queued : list bytes; closed : bool }.

Definition pipe_readline (p : pipe) : readline_outcome * pipe :=
  match queued p with
  | l :: rest => (Line l, mkPipe rest (closed p))
  | [] => if closed p then (Line [], p) else (Blocks, p)
  end.

Definition pipe_stderr : Stderr pipe := {| stderr_readline := pipe_readline |}.

(** ** More about logs, and more scenarios *)

(** Stream traffic and prints: all that an exchange adds to the log. *)
Definition is_traffic (e : event) : bool :=
  match e with
  | EvWrite _ _ | EvReadline _ _ | EvPrintBytes _ => true
  | _ => false
  end.

(** From [s] to [s'] only stream traffic happened: the lock, the launch
    count and the drain task are as before, a bound [proc] stays bound, and
    the log grew by traffic events. *)
Definition only_traffic {W : Type} (s s' : state W) : Prop :=
  io_lock s' = io_lock s
  /\ launches s' = launches s
  /\ stderr_task s' = stderr_task s
  /\ (forall w, proc s = Some w -> exists w', proc s' = Some w')
  /\ exists evs, log s' = (evs ++ log s)%list /\ forallb is_traffic evs = true.

(** A child that follows a script: each [readline] yields the next outcome
    of the script and times out once the script is used up; it accepts every
    write and is never seen to exit. *)
Definition scripted (boot : nat -> OSError + list (OSError + bytes))
  : Worker (list (OSError + bytes)) := {|
  create_subprocess_exec := boot;
  returncode := fun _ => None;
  stdin_write_drain := fun _ c => (None, c);
  stdout_readline := fun _ c =>
    match c with
    | o :: rest => (o, rest)
    | [] => (inl TimeoutError, [])
    end;
  terminate := fun c => c;
  kill := fun c => c;
  wait_for_exit := fun _ c => (Some 0%Z, c);
  wait_exit := fun c => (Some 0%Z, c)
|}.

(** The bytes that the [readline] calls of a log returned, in the order in
    which they arrived. *)
Definition received (evs : list event) : bytes :=
  flat_map (fun e => match e with EvReadline _ (inr data) => data | _ => [] end) (rev evs).

(** A buffer made of whole lines: empty, or ending in a newline. *)
Definition whole_lines (buf : bytes) : Prop :=
  buf = [] \/ exists front, buf = (front ++ [NEWLINE])%list.

Section Clients.
Context {W : Type} `{Worker W}.
Local Open Scope coro_scope.

(** A client that sends the queries [qs] one after the other. *)
Fixpoint send_each (fuel : nat) (qs : list str) : M (state W) (list response) :=
  match qs with
  | [] => ret []
  | q :: rest =>
      let* r := send fuel q in
      let* rs := send_each fuel rest in
      ret (r :: rs)
  end.

End Clients.

Module Unreaped.
Import Stub.

(** The stub child when the event loop has not noticed that it exited:
    [returncode] is still [None], whatever happened to the process. *)
Definition worker (boot : nat -> OSError + child) : Worker child := {|
  create_subprocess_exec := boot;
  returncode := fun _ => None;
  stdin_write_drain := write_drain;
  stdout_readline := fun _ => readline;
  terminate := sigterm;
  kill := sigkill;
  wait_for_exit := fun _ c => (exit_code c, c);
  wait_exit := fun c => (exit_code c, c)
|}.

End Unreaped.

(** * Properties *)

(** ** The codec *)

Section CodecFacts.
Local Open Scope Z_scope.

Lemma utf8_encode_app (s1 s2 : str) :
  utf8_encode (s1 ++ s2)
  = match utf8_encode s1, utf8_encode s2 with
    | Some b1, Some b2 => Some (b1 ++ b2)
    | _, _ => None
    end.
Proof.
  induction s1 as [|ch s1 IH]; cbn [utf8_encode app].
  - destruct (utf8_encode s2); reflexivity.
  - rewrite IH.
    destruct (utf8_encode_cp ch), (utf8_encode s1), (utf8_encode s2);
      rewrite ?app_assoc; reflexivity.
Qed.

(** The query line: the encoding of [q + "\\n"] is that of [q] plus one
    newline byte. *)
Lemma utf8_encode_line (q : str) :
  utf8_encode (q ++ [NEWLINE])
  = match utf8_encode q with
    | Some encoded => Some (encoded ++ [NEWLINE])
    | None => None
    end.
Proof. rewrite utf8_encode_app. destruct (utf8_encode q); reflexivity. Qed.

Lemma count_newlines_app (b1 b2 : list Z) :
  count_newlines (b1 ++ b2) = (count_newlines b1 + count_newlines b2)%nat.
Proof. unfold count_newlines. rewrite List.filter_app, length_app. reflexivity. Qed.

(** A lead or continuation byte has bit 7 set, so it is no newline. *)
Lemma high_byte_not_newline (a x : Z) :
  Z.testbit a 7 = true -> (Z.lor a x =? NEWLINE) = false.
Proof.
  intros Ha. apply Z.eqb_neq. intros Heq.
  apply (f_equal (fun z => Z.testbit z 7)) in Heq.
  rewrite Z.lor_spec, Ha in Heq. discriminate Heq.
Qed.

Lemma utf8_encode_cp_newlines (ch : Z) (b : bytes) :
  utf8_encode_cp ch = Some b ->
  count_newlines b = if ch =? NEWLINE then 1%nat else 0%nat.
Proof.
  unfold utf8_encode_cp.
  destruct (Z.ltb_spec ch 0); [discriminate|].
  destruct (Z.ltb_spec ch 0x80).
  { intros [= <-]. unfold count_newlines. cbn. destruct (ch =? NEWLINE); reflexivity. }
  assert ((ch =? NEWLINE) = false) as -> by (apply Z.eqb_neq; unfold NEWLINE; lia).
  destruct (ch <? 0x800).
  { intros [= <-]. unfold count_newlines. cbn.
    rewrite !high_byte_not_newline by reflexivity. reflexivity. }
  destruct ((0xD800 <=? ch) && (ch <=? 0xDFFF)); [discriminate|].
  destruct (ch <? 0x10000).
  { intros [= <-]. unfold count_newlines. cbn.
    rewrite !high_byte_not_newline by reflexivity. reflexivity. }
  destruct (ch <? 0x110000); [|discriminate].
  intros [= <-]. unfold count_newlines. cbn.
  rewrite !high_byte_not_newline by reflexivity. reflexivity.
Qed.

(** Encoding neither adds nor removes newlines: no escaping takes place. *)
Lemma utf8_encode_newlines (q : str) (encoded : bytes) :
  utf8_encode q = Some encoded -> count_newlines encoded = count_newlines q.
Proof.
  revert encoded. induction q as [|ch q IH]; intros encoded; cbn [utf8_encode].
  - intros [= <-]. reflexivity.
  - destruct (utf8_encode_cp ch) as [b|] eqn:Hch; [|discriminate].
    destruct (utf8_encode q) as [bs|]; [|discriminate].
    intros [= <-]. rewrite count_newlines_app, (IH bs eq_refl).
    rewrite (utf8_encode_cp_newlines ch b Hch).
    unfold count_newlines. cbn [List.filter].
    destruct (ch =? NEWLINE); reflexivity.
Qed.

End CodecFacts.

Example utf8_encode_ascii : utf8_encode (lit "hello") = Some [104; 101; 108; 108; 111]%Z.
Proof. reflexivity. Qed.

Example utf8_encode_euro : utf8_encode [0x20AC]%Z = Some [0xE2; 0x82; 0xAC]%Z.
Proof. reflexivity. Qed.

Example utf8_encode_surrogate : utf8_encode [0x61; 0xD800]%Z = None.
Proof. reflexivity. Qed.

Example utf8_decode_euro : utf8_decode_replace [0xE2; 0x82; 0xAC; 0x0A]%Z = [0x20AC; 10]%Z.
Proof. reflexivity. Qed.

Example utf8_decode_truncated : utf8_decode_replace [0x61; 0xE2; 0x82]%Z = [0x61; 0xFFFD]%Z.
Proof. reflexivity. Qed.

Example utf8_decode_bad_start : utf8_decode_replace [0xFF; 0x62; 0x80]%Z = [0xFFFD; 0x62; 0xFFFD]%Z.
Proof. reflexivity. Qed.

Example rstrip_newline_inner : rstrip_newline (lit "a" ++ [10; 98; 10; 10]%Z) = [97; 10; 98]%Z.
Proof. reflexivity. Qed.

(** ** The supervisor: [start_kotlin] and [stop_kotlin] *)

Section Supervisor.
Context {W : Type} `{Worker W}.
Local Open Scope string_scope.

Lemma running_inv (s : state W) :
  running s = true <-> exists w, proc s = Some w /\ returncode w = None.
Proof.
  unfold running. destruct (proc s) as [w|]; [destruct (returncode w) eqn:E|].
  - split; [discriminate | intros (w' & Hw & Hr); congruence].
  - split; [intros _; eauto | reflexivity].
  - split; [discriminate | intros (w' & Hw & _); discriminate].
Qed.

Lemma start_kotlin_running (s : state W) :
  running s = true -> start_kotlin s = (Returned tt, emit (EvPrint "NO") s).
Proof.
  intros Hr. unfold start_kotlin, bind, gets. rewrite Hr. reflexivity.
Qed.

Lemma start_kotlin_not_running (s : state W) :
  running s = false -> start_kotlin s = launch s.
Proof.
  intros Hr. unfold start_kotlin, bind, gets. rewrite Hr. reflexivity.
Qed.

(** C8. While a live child exists, [start_kotlin] -- once or any number of
    times -- returns normally, launches nothing (no new attempt, no spawn
    event, no new drain task) and leaves the global [proc] as it was. *)
Theorem start_kotlin_idempotent (s : state W) (n : nat) :
  running s = true ->
  exists s',
    start_kotlin_times n s = (Returned tt, s')
    /\ proc s' = proc s
    /\ launches s' = launches s
    /\ spawned (log s') = spawned (log s)
    /\ stderr_task s' = stderr_task s
    /\ io_lock s' = io_lock s.
Proof.
  intros Hr. revert s Hr. induction n as [|n IH]; intros s Hr.
  - exists s. repeat split; reflexivity.
  - cbn [start_kotlin_times]. unfold bind at 1.
    rewrite (start_kotlin_running s Hr).
    destruct (IH (emit (EvPrint "NO") s)) as (s' & Hs' & Hp & Hl & Hsp & Hst & Hio).
    { unfold running in *. exact Hr. }
    exists s'. repeat split; assumption.
Qed.

(** The state [stop_kotlin] leaves: [proc] cleared, [evs] logged. *)
Lemma stop_kotlin_cases (s : state W) :
  match proc s with
  | None => stop_kotlin s = (Returned tt, s)
  | Some w =>
      match returncode w with
      | Some _ => stop_kotlin s = (Returned tt, set_proc None s)
      | None =>
          let '(exited, w1) := wait_for_exit 2 (terminate w) in
          let graceful := EvWaitFor 2 exited :: EvTerminate :: log s in
          match exited with
          | Some _ =>
              stop_kotlin s
              = (Returned tt, mkState None (io_lock s) (stderr_task s) (launches s) graceful)
          | None =>
              let '(killed, w2) := wait_exit (kill w1) in
              let forced := EvWait killed :: EvKill :: graceful in
              match killed with
              | Some _ =>
                  stop_kotlin s
                  = (Returned tt, mkState None (io_lock s) (stderr_task s) (launches s) forced)
              | None =>
                  stop_kotlin s
                  = (Pending, mkState (Some w2) (io_lock s) (stderr_task s) (launches s) forced)
              end
          end
      end
  end.
Proof.
  unfold stop_kotlin, bind, gets.
  destruct (proc s) as [w|] eqn:Hp; [|reflexivity].
  destruct (returncode w) as [code|] eqn:Hc; [reflexivity|].
  unfold proc_terminate, try_except, proc_wait_for, proc_kill, proc_wait, on_proc, bind, ret.
  rewrite Hp. cbn.
  destruct (wait_for_exit 2 (terminate w)) as [[code|] w1]; cbn; [reflexivity|].
  destruct (wait_exit (kill w1)) as [[code|] w2]; reflexivity.
Qed.

(** C9. [stop_kotlin] is a no-op without a process; on a process that is
    still running it terminates it, waits up to 2 seconds, and kills it only
    when that wait timed out; whenever it returns -- also for a process that
    had already exited -- the global [proc] is [None], and it never raises. *)
Theorem stop_kotlin_spec (s : state W) :
  match proc s with
  | None => stop_kotlin s = (Returned tt, s)
  | Some w =>
      let '(r, s') := stop_kotlin s in
      match r with
      | Raised _ => False
      | Pending =>
          returncode w = None
          /\ fst (wait_for_exit 2 (terminate w)) = None
          /\ fst (wait_exit (kill (snd (wait_for_exit 2 (terminate w))))) = None
      | Returned _ =>
          proc s' = None
          /\ io_lock s' = io_lock s /\ launches s' = launches s
          /\ match returncode w with
             | Some _ => log s' = log s
             | None =>
                 match fst (wait_for_exit 2 (terminate w)) with
                 | Some code =>
                     log s' = EvWaitFor 2 (Some code) :: EvTerminate :: log s
                 | None =>
                     exists code,
                       log s' = EvWait code :: EvKill :: EvWaitFor 2 None
                                  :: EvTerminate :: log s
                 end
             end
      end
  end.
Proof.
  pose proof (stop_kotlin_cases s) as Hc.
  destruct (proc s) as [w|]; [|exact Hc].
  destruct (returncode w) as [code|].
  - rewrite Hc. cbn. auto.
  - destruct (wait_for_exit 2 (terminate w)) as [[code|] w1]; cbn [fst snd] in *.
    + rewrite Hc. cbn. auto.
    + destruct (wait_exit (kill w1)) as [[code|] w2]; rewrite Hc; cbn; eauto 6.
Qed.

End Supervisor.

(** ** The gateway: [send] *)

Section Gateway.
Context {W : Type} `{Worker W}.
Local Open Scope string_scope.

Lemma check_proc_returned (s s' : state W) (u : unit) :
  check_proc s = (Returned u, s') -> s' = s /\ running s = true.
Proof.
  unfold check_proc, running, bind, gets, raise, ret.
  destruct (proc s) as [w|]; [|discriminate].
  destruct (returncode w); [discriminate|].
  intros [= _ <-]. auto.
Qed.

Lemma check_proc_running (s : state W) :
  running s = true -> check_proc s = (Returned tt, s).
Proof.
  unfold check_proc, running, bind, gets, raise, ret.
  destruct (proc s) as [w|]; [|discriminate].
  destruct (returncode w); [discriminate|reflexivity].
Qed.

(** One iteration of the loop, by the outcome of its [readline]. *)
Lemma loop_body_step (b : bytes) (s : state W) (w : W) :
  proc s = Some w ->
  loop_body (mkLocals (Some b), s)
  = let '(r, w') := stdout_readline 5 w in
    let s' := after_io w' [EvReadline 5 r; EvPrintBytes b] s in
    match r with
    | inr more => (Returned tt, (mkLocals (Some (b ++ more)%list), s'))
    | inl e => (Raised (OSErr e), (mkLocals (Some b), s'))
    end.
Proof.
  intros Hp.
  unfold loop_body, bind, load_line, global, modify, proc_stdout_readline, on_proc, store_line.
  cbn. rewrite Hp.
  destruct (stdout_readline 5 w) as [[e|more] w']; reflexivity.
Qed.

Lemma loop_body_no_proc (b : bytes) (s : state W) :
  proc s = None ->
  loop_body (mkLocals (Some b), s)
  = (Raised (AttributeError "stdout"), (mkLocals (Some b), emit (EvPrintBytes b) s)).
Proof.
  intros Hp.
  unfold loop_body, bind, load_line, global, modify, proc_stdout_readline, on_proc, store_line.
  cbn. rewrite Hp. reflexivity.
Qed.

Lemma loop_body_unbound (s : state W) :
  loop_body (mkLocals None, s) = (Raised (UnboundLocalError "line"), (mkLocals None, s)).
Proof. reflexivity. Qed.

(** The loop has no normal exit. *)
Lemma loop_never_returns (fuel : nat) (ls : locals * state W) (u : unit) (ls' : locals * state W) :
  while_ fuel (ret true) loop_body ls <> (Returned u, ls').
Proof.
  revert ls. induction fuel as [|fuel IH]; intros ls; cbn [while_].
  - unfold pending. discriminate.
  - unfold bind at 1, ret at 1. unfold bind at 1.
    destruct (loop_body ls) as [[[]|e|] ls1]; [apply IH | discriminate | discriminate].
Qed.

(** When the loop stops, a [readline] has just raised (or a name was
    missing), and the buffer is still bound. *)
Lemma loop_raised (fuel : nat) (l : locals) (s : state W) (e : exn) (l' : locals) (s' : state W) :
  while_ fuel (ret true) loop_body (l, s) = (Raised e, (l', s')) ->
  (exists name, e = UnboundLocalError name /\ line l = None)
  \/ (exists attr, e = AttributeError attr)
  \/ (exists oe older b,
        e = OSErr oe /\ log s' = EvReadline 5 (inl oe) :: older /\ line l' = Some b).
Proof.
  revert l s. induction fuel as [|fuel IH]; intros l s; cbn [while_].
  - unfold pending. discriminate.
  - unfold bind at 1, ret at 1. unfold bind at 1.
    destruct l as [[b|]].
    + destruct (proc s) as [w|] eqn:Hp.
      * rewrite (loop_body_step b s w Hp).
        destruct (stdout_readline 5 w) as [[oe|more] w'].
        -- intros [= <- <- <-]. right. right. exists oe. eexists. exists b. cbn. auto.
        -- intros Hl. apply IH in Hl. destruct Hl as [(name & _ & Hn)|Hl]; [discriminate|]. auto.
      * rewrite (loop_body_no_proc b s Hp). intros [= <- _ _]. right. left. eauto.
    + rewrite loop_body_unbound. intros [= <- _ _]. left. eauto.
Qed.

Lemma write_query_step (q : str) (payload : bytes) (l : locals) (s : state W) (w : W) :
  proc s = Some w ->
  utf8_encode (q ++ [NEWLINE])%list = Some payload ->
  write_query q (l, s)
  = let '(err, w') := stdin_write_drain payload w in
    (match err with Some e => Raised (OSErr e) | None => Returned tt end,
     (l, after_io w' [EvWrite payload err] s)).
Proof.
  intros Hp He.
  unfold write_query, encode_payload, bind, global, proc_stdin_write_drain, on_proc.
  rewrite He. cbn. rewrite Hp.
  destruct (stdin_write_drain payload w) as [[e|] w']; reflexivity.
Qed.

Lemma first_read_step (l : locals) (s : state W) (w : W) :
  proc s = Some w ->
  first_read (l, s)
  = let '(r, w') := stdout_readline 5 w in
    let s' := after_io w' [EvReadline 5 r] s in
    match r with
    | inr data => (Returned tt, (mkLocals (Some data), s'))
    | inl e => (Raised (OSErr e), (l, s'))
    end.
Proof.
  intros Hp.
  unfold first_read, bind, global, proc_stdout_readline, on_proc, store_line.
  cbn. rewrite Hp.
  destruct (stdout_readline 5 w) as [[e|data] w']; reflexivity.
Qed.

Lemma send_try_outcome (fuel : nat) (q : str) (l : locals) (s : state W)
      (r : result response) (l' : locals) (s' : state W) :
  line l = None ->
  send_try fuel q (l, s) = (r, (l', s')) ->
  match r with
  | Returned _ => False
  | Raised e => raised_in_try l e l' s'
  | Pending => True
  end.
Proof.
  intros Hl. unfold send_try. unfold bind at 1.
  destruct (write_query q (l, s)) as [[[]|e|] [l1 s1]] eqn:Hw.
  - (* the write went through *)
    assert (l1 = l) as ->.
    { revert Hw. unfold write_query, encode_payload, bind, global, proc_stdin_write_drain, on_proc.
      destruct (utf8_encode _); cbn; [|discriminate].
      destruct (proc s); [|discriminate].
      destruct (stdin_write_drain _ _) as [[?|] ?]; intros [= <- _]; reflexivity. }
    unfold bind at 1.
    destruct (first_read (l, s1)) as [[[]|e|] [l2 s2]] eqn:Hr.
    + unfold bind at 1.
      destruct (while_ fuel (ret true) loop_body (l2, s2)) as [[[]|e|] [l3 s3]] eqn:Hloop.
      * exfalso. exact (loop_never_returns _ _ _ _ Hloop).
      * intros [= <- <- <-].
        assert (exists b, line l2 = Some b) as [b Hb].
        { revert Hr. unfold first_read, bind, global, proc_stdout_readline, on_proc, store_line.
          destruct (proc s1); cbn; [|discriminate].
          destruct (stdout_readline _ _) as [[?|?] ?]; [discriminate|].
          intros [= <- _]. eauto. }
        apply loop_raised in Hloop.
        destruct Hloop as [(name & _ & Hn)|[(attr & ->)|(oe & older & b' & -> & Hlog & Hb')]].
        -- congruence.
        -- right. left. eauto.
        -- do 4 right. exists oe, b'. eauto.
      * intros [= <- _ _]. exact I.
    + intros [= <- <- <-].
      revert Hr. unfold first_read, bind, global, proc_stdout_readline, on_proc, store_line.
      destruct (proc s1); cbn.
      * destruct (stdout_readline _ _) as [[oe|?] ?]; [|discriminate].
        intros [= <- <- <-]. do 3 right. left. exists oe. cbn. eauto.
      * intros [= <- _ _]. right. left. eauto.
    + intros [= <- _ _]. exact I.
  - intros [= <- <- <-].
    revert Hw. unfold write_query, encode_payload, bind, global, proc_stdin_write_drain, on_proc.
    destruct (utf8_encode _) as [payload|]; cbn.
    + destruct (proc s).
      * destruct (stdin_write_drain _ _) as [[oe|] ?]; [|discriminate].
        intros [= <- <- <-]. do 2 right. left. exists oe, payload. cbn. eauto.
      * intros [= <- _ _]. right. left. eauto.
    + intros [= <- <- _]. left. auto.
  - intros [= <- _ _]. exact I.
Qed.


(** The loop reads the lines [ls] and stops at the first [readline] that
    raises, with everything read so far in the buffer. *)
Lemma loop_reads_raise (ls : list bytes) (w w2 : W) :
  reads w ls w2 ->
  forall (fuel : nat) (b : bytes) (s : state W) (e : OSError) (w3 : W),
    proc s = Some w ->
    stdout_readline 5 w2 = (inl e, w3) ->
    List.length ls < fuel ->
    while_ fuel (ret true) loop_body (mkLocals (Some b), s)
    = (Raised (OSErr e),
       (mkLocals (Some (b ++ concat ls)%list),
        mkState (Some w3) (io_lock s) (stderr_task s) (launches s)
                (EvReadline 5 (inl e) :: EvPrintBytes (b ++ concat ls)%list
                   :: loop_events b ls (log s)))).
Proof.
  induction 1 as [w|w w1 w2 l ls Hread _ IH]; intros fuel b s e w3 Hp Hlast Hfuel.
  - destruct fuel as [|fuel]; [cbn in Hfuel; lia|].
    cbn [while_]. unfold bind at 1, ret at 1. unfold bind at 1.
    rewrite (loop_body_step b s w Hp), Hlast. cbn.
    rewrite app_nil_r. reflexivity.
  - destruct fuel as [|fuel]; [cbn in Hfuel; lia|].
    cbn [while_]. unfold bind at 1, ret at 1. unfold bind at 1.
    rewrite (loop_body_step b s w Hp), Hread.
    cbv zeta iota beta.
    rewrite (IH fuel (b ++ l)%list _ e w3); [|reflexivity|exact Hlast|cbn in Hfuel; lia].
    cbn. rewrite <- app_assoc. reflexivity.
Qed.

(** A response is only ever produced by the [except TimeoutError] clause,
    after a [readline] that timed out with the buffer already bound. *)
Lemma send_returned (fuel : nat) (q : str) (s : state W) (r : response) (s' : state W) :
  send fuel q s = (Returned r, s') ->
  exists (s1 s2 : state W) (b : bytes) (older : list event),
    start_kotlin s = (Returned tt, s1)
    /\ running s1 = true /\ io_lock s1 = false
    /\ send_try fuel q (mkLocals None, acquired s1)
       = (Raised (OSErr TimeoutError), (mkLocals (Some b), s2))
    /\ log s2 = EvReadline 5 (inl TimeoutError) :: older
    /\ r = out_of b
    /\ s' = release s2.
Proof.
  unfold send. unfold bind at 1.
  destruct (start_kotlin s) as [[[]|e|] s1] eqn:Hstart; try discriminate.
  unfold bind at 1.
  destruct (check_proc s1) as [[[]|e|] s1'] eqn:Hcheck; try discriminate.
  apply check_proc_returned in Hcheck as [-> Hrun].
  unfold async_with_io_lock, bind, acquire.
  destruct (io_lock s1) eqn:Hlock; [discriminate|].
  unfold try_finally, exchange, frame, try_except.
  destruct (send_try fuel q (mkLocals None, acquired s1)) as [[r0|e|] [l' s2]] eqn:Htry.
  - apply send_try_outcome in Htry; [contradiction|reflexivity].
  - pose proof (send_try_outcome fuel q (mkLocals None) _ _ _ _ eq_refl Htry) as Hout. cbn in Hout.
    destruct e as [[| | | |]| | | | |]; cbn; try discriminate.
    unfold bind, load_line, ret.
    destruct l' as [[b|]]; cbn; [|discriminate].
    intros [= <- <-].
    exists s1, s2, b.
    destruct Hout as [[[=] _]|[(attr & [=])|[(oe & payload & _ & [=] & _)|[(oe & _ & [=] & _)|Hout]]]].
    destruct Hout as (oe & b' & [= <-] & _ & older & Hlog).
    exists older. auto 10.
  - discriminate.
Qed.

(** [send] on a state where [start_kotlin] leaves a live child and the lock
    is free: the exchange runs under the lock, released when it ends. *)
Lemma send_unfold (fuel : nat) (q : str) (s s1 : state W) :
  start_kotlin s = (Returned tt, s1) ->
  running s1 = true ->
  io_lock s1 = false ->
  send fuel q s = try_finally (exchange fuel q) release (acquired s1).
Proof.
  intros Hstart Hrun Hlock.
  unfold send. unfold bind at 1. rewrite Hstart.
  unfold bind at 1. rewrite (check_proc_running s1 Hrun).
  unfold async_with_io_lock, bind, acquire. rewrite Hlock. reflexivity.
Qed.

(** The exchange when the child accepts the query, answers with the lines
    [first :: rest] and then stays silent for 5 seconds: the timeout handler
    returns what was read, and the child is left where the last read left it. *)
Lemma exchange_timeout (fuel : nat) (q : str) (s : state W) (payload : bytes)
      (w w1 w2 w3 : W) (first : bytes) (rest : list bytes) :
  proc s = Some w ->
  utf8_encode (q ++ [NEWLINE])%list = Some payload ->
  stdin_write_drain payload w = (None, w1) ->
  reads w1 (first :: rest) w2 ->
  stdout_readline 5 w2 = (inl TimeoutError, w3) ->
  List.length rest < fuel ->
  exchange fuel q s
  = (Returned (out_of (first ++ concat rest)%list),
     mkState (Some w3) (io_lock s) (stderr_task s) (launches s)
             (EvReadline 5 (inl TimeoutError)
                :: EvPrintBytes (first ++ concat rest)%list
                :: loop_events first rest
                     (EvReadline 5 (inr first) :: EvWrite payload None :: log s))).
Proof.
  intros Hp Henc Hwrite Hreads Hlast Hfuel.
  inversion Hreads as [|? w1' ? ? ? Hfirst Hrest]; subst.
  unfold exchange, frame, try_except, send_try.
  unfold bind at 1. rewrite (write_query_step q payload _ s w Hp Henc), Hwrite.
  cbv zeta iota beta.
  unfold bind at 1. erewrite (first_read_step _ _ w1) by reflexivity. rewrite Hfirst.
  cbv zeta iota beta.
  unfold bind at 1.
  erewrite (loop_reads_raise rest w1' w2 Hrest fuel first _ TimeoutError w3);
    [reflexivity | reflexivity | exact Hlast | exact Hfuel].
Qed.




(** *** What reaches the child's stdin *)

Lemma start_kotlin_written (s : state W) :
  written (log (snd (start_kotlin s))) = written (log s).
Proof.
  unfold start_kotlin, bind, gets, print, modify, launch.
  destruct (running s); [reflexivity|].
  destruct (create_subprocess_exec (launches s)); reflexivity.
Qed.

Lemma loop_written (fuel : nat) (ls : locals * state W) :
  written (log (snd (snd (while_ fuel (ret true) loop_body ls)))) = written (log (snd ls)).
Proof.
  revert ls. induction fuel as [|fuel IH]; intros [l s]; cbn [while_]; [reflexivity|].
  unfold bind at 1, ret at 1. unfold bind at 1.
  destruct l as [[b|]]; [|reflexivity].
  destruct (proc s) as [w|] eqn:Hp.
  - rewrite (loop_body_step b s w Hp).
    destruct (stdout_readline 5 w) as [[oe|more] w']; [reflexivity|].
    cbv zeta iota beta. rewrite IH. reflexivity.
  - rewrite (loop_body_no_proc b s Hp). reflexivity.
Qed.

(** The handlers read [line] and build the result; they touch nothing. *)
Lemma send_except_keeps_state (e : exn) (h : M (locals * state W) response)
      (ls : locals * state W) :
  send_except e = Some h -> snd (h ls) = ls.
Proof.
  destruct e as [[| | | |]| | | | |]; cbn; try discriminate; intros [= <-].
  - unfold bind, load_line, ret. destruct ls as [[[b|]] s]; reflexivity.
  - reflexivity.
Qed.

Lemma handled_keeps_state (e : exn) (ls : locals * state W) :
  snd (handled e ls) = ls.
Proof.
  unfold handled. destruct (send_except e) as [h|] eqn:He; [|reflexivity].
  exact (send_except_keeps_state e h ls He).
Qed.

Lemma exchange_state (fuel : nat) (q : str) (s : state W) :
  snd (exchange fuel q s) = snd (snd (send_try fuel q (mkLocals None, s))).
Proof.
  unfold exchange, frame, try_except.
  destruct (send_try fuel q (mkLocals None, s)) as [[r|e|] [l' s']]; try reflexivity.
  destruct (send_except e) as [h|] eqn:He; [|reflexivity].
  pose proof (send_except_keeps_state e h (l', s') He) as Hk.
  destruct (h (l', s')) as [r [l'' s'']]. cbn in *. congruence.
Qed.

Lemma send_try_written (fuel : nat) (q : str) (payload : bytes) (l : locals)
      (s : state W) (w : W) :
  proc s = Some w ->
  utf8_encode (q ++ [NEWLINE])%list = Some payload ->
  written (log (snd (snd (send_try fuel q (l, s))))) = payload :: written (log s).
Proof.
  intros Hp Henc. unfold send_try.
  unfold bind at 1. rewrite (write_query_step q payload l s w Hp Henc).
  destruct (stdin_write_drain payload w) as [[oe|] w1]; [reflexivity|].
  cbv zeta iota beta.
  unfold bind at 1. erewrite (first_read_step _ _ w1) by reflexivity.
  destruct (stdout_readline 5 w1) as [[oe|data] w2]; [reflexivity|].
  cbv zeta iota beta.
  unfold bind at 1.
  match goal with
  | |- context [while_ fuel ?c ?b ?ls] =>
      pose proof (loop_written fuel ls) as Hloop;
      pose proof (loop_never_returns fuel ls) as Hnever;
      destruct (while_ fuel c b ls) as [[[]|e|] [l3 s3]]
  end.
  - exfalso. exact (Hnever _ _ eq_refl).
  - cbn in *. rewrite Hloop. reflexivity.
  - cbn in *. rewrite Hloop. reflexivity.
Qed.

Lemma send_try_unencodable (fuel : nat) (q : str) (ls : locals * state W) :
  utf8_encode (q ++ [NEWLINE])%list = None ->
  send_try fuel q ls = (Raised UnicodeEncodeError, ls).
Proof.
  intros Henc. unfold send_try, write_query, encode_payload.
  unfold bind at 1. unfold bind at 1. rewrite Henc. reflexivity.
Qed.

(** C10. What [send] writes to the child's stdin is one payload: the UTF-8
    encoding of [q] followed by a single newline byte, nothing escaped -- the
    payload holds one newline more than [q] does, so a [q] with a newline in
    it reaches the child as more than one line.  (A [q] that UTF-8 cannot
    encode raises [UnicodeEncodeError] and nothing is written.) *)
Theorem send_writes_query_line (fuel : nat) (q : str) (s s1 : state W) :
  start_kotlin s = (Returned tt, s1) ->
  running s1 = true ->
  io_lock s1 = false ->
  match utf8_encode q with
  | Some encoded =>
      written (log (snd (send fuel q s))) = (encoded ++ [NEWLINE])%list :: written (log s)
      /\ count_newlines (encoded ++ [NEWLINE])%list = S (count_newlines q)
  | None =>
      written (log (snd (send fuel q s))) = written (log s)
      /\ fst (send fuel q s) = Raised UnicodeEncodeError
  end.
Proof.
  intros Hstart Hrun Hlock.
  rewrite (send_unfold fuel q s s1 Hstart Hrun Hlock).
  pose proof (start_kotlin_written s) as Hsw. rewrite Hstart in Hsw. cbn in Hsw.
  apply running_inv in Hrun as (w & Hp & _).
  pose proof (utf8_encode_line q) as Hline.
  assert (written (log (snd (try_finally (exchange fuel q) release (acquired s1))))
          = written (log (snd (exchange fuel q (acquired s1))))) as ->.
  { unfold try_finally. destruct (exchange fuel q (acquired s1)) as [[?|?|] ?]; reflexivity. }
  destruct (utf8_encode q) as [encoded|] eqn:Henc.
  - split.
    + pose proof (send_try_written fuel q _ (mkLocals None) (acquired s1) w Hp Hline) as Hw.
      rewrite <- exchange_state in Hw. rewrite Hw, <- Hsw. reflexivity.
    + rewrite count_newlines_app, (utf8_encode_newlines q encoded Henc).
      unfold count_newlines at 2. cbn. lia.
  - unfold try_finally, exchange, frame, try_except.
    rewrite (send_try_unencodable fuel q _ Hline). cbn. rewrite <- Hsw. auto.
Qed.

(** *** A child that has exited *)

(** The state [launch] leaves when the n-th launch yields [w]. *)
Lemma start_kotlin_relaunch (s : state W) (w : W) :
  running s = false ->
  create_subprocess_exec (launches s) = inr w ->
  start_kotlin s
  = (Returned tt,
     mkState (Some w) (io_lock s) (Some (launches s)) (S (launches s))
             (EvCreateTask (launches s) :: EvSpawn (launches s) :: log s)).
Proof.
  intros Hrun Hboot. rewrite (start_kotlin_not_running s Hrun).
  unfold launch. rewrite Hboot. reflexivity.
Qed.

(** C5 (as amended). When the child had exited before the call, [send] first
    launches a replacement.  A failed launch propagates; if the replacement
    is alive the request is served by it, under the lock; only if the
    replacement itself already has an exit code does [send] raise the HTTP 500
    "exited with code", and the code it carries is the replacement's. *)
Theorem send_after_worker_exit (fuel : nat) (q : str) (s : state W) (old : W) (code0 : Z) :
  proc s = Some old ->
  returncode old = Some code0 ->
  io_lock s = false ->
  match create_subprocess_exec (launches s) with
  | inl e => fst (send fuel q s) = Raised (OSErr e)
  | inr w =>
      let s1 := mkState (Some w) false (Some (launches s)) (S (launches s))
                        (EvCreateTask (launches s) :: EvSpawn (launches s) :: log s) in
      match returncode w with
      | Some code =>
          send fuel q s
          = (Raised (HTTPException 500 ("Kotlin process exited with code " ++ code_text code)), s1)
      | None => send fuel q s = try_finally (exchange fuel q) release (acquired s1)
      end
  end.
Proof.
  intros Hp Hrc Hlock.
  assert (running s = false) as Hrun by (unfold running; rewrite Hp, Hrc; reflexivity).
  destruct (create_subprocess_exec (launches s)) as [e|w] eqn:Hboot.
  - unfold send. unfold bind at 1.
    rewrite (start_kotlin_not_running s Hrun). unfold launch. rewrite Hboot. reflexivity.
  - pose proof (start_kotlin_relaunch s w Hrun Hboot) as Hstart. rewrite Hlock in Hstart.
    cbv zeta. destruct (returncode w) as [code|] eqn:Hw.
    + unfold send. unfold bind at 1. rewrite Hstart.
      unfold bind at 1. unfold check_proc, bind, gets. cbn. rewrite Hw. reflexivity.
    + apply (send_unfold fuel q s _ Hstart); [|reflexivity].
      unfold running. cbn. rewrite Hw. reflexivity.
Qed.

(** *** Exchanges that go wrong *)

(** The first [readline] times out: the handler reads the unbound [line]. *)
Lemma exchange_first_read_timeout (fuel : nat) (q : str) (s : state W) (payload : bytes)
      (w w1 w2 : W) :
  proc s = Some w ->
  utf8_encode (q ++ [NEWLINE])%list = Some payload ->
  stdin_write_drain payload w = (None, w1) ->
  stdout_readline 5 w1 = (inl TimeoutError, w2) ->
  exchange fuel q s
  = (Raised (UnboundLocalError "line"),
     after_io w2 [EvReadline 5 (inl TimeoutError); EvWrite payload None] s).
Proof.
  intros Hp Henc Hwrite Hread.
  unfold exchange, frame, try_except, send_try.
  unfold bind at 1. rewrite (write_query_step q payload _ s w Hp Henc), Hwrite.
  cbv zeta iota beta.
  unfold bind at 1. erewrite (first_read_step _ _ w1) by reflexivity. rewrite Hread.
  reflexivity.
Qed.

(** A child whose stdout keeps yielding lines for ever -- a stream at
    end-of-stream yields [b''] each time -- keeps the loop running. *)
Lemma loop_reads_forever (endless : W -> Prop) :
  (forall w, endless w -> exists l w', stdout_readline 5 w = (inr l, w') /\ endless w') ->
  forall (fuel : nat) (b : bytes) (s : state W) (w : W),
    proc s = Some w -> endless w ->
    exists ls',
      while_ fuel (ret true) loop_body (mkLocals (Some b), s) = (Pending, ls')
      /\ io_lock (snd ls') = io_lock s.
Proof.
  intros Hendless. induction fuel as [|fuel IH]; intros b s w Hp Hw.
  - eexists. split; reflexivity.
  - cbn [while_]. unfold bind at 1, ret at 1. unfold bind at 1.
    rewrite (loop_body_step b s w Hp).
    destruct (Hendless w Hw) as (l & w' & -> & Hw').
    cbv zeta iota beta.
    edestruct (IH (b ++ l)%list) as (ls' & -> & Hlock); [reflexivity | exact Hw' |].
    exists ls'. split; [reflexivity | exact Hlock].
Qed.

(** With such a child [send] never completes and keeps the lock, whatever
    the fuel. *)
Lemma send_never_completes (endless : W -> Prop) (fuel : nat) (q : str) (s s1 : state W)
      (payload : bytes) (w w1 : W) :
  (forall w, endless w -> exists l w', stdout_readline 5 w = (inr l, w') /\ endless w') ->
  start_kotlin s = (Returned tt, s1) ->
  proc s1 = Some w ->
  returncode w = None ->
  io_lock s1 = false ->
  utf8_encode (q ++ [NEWLINE])%list = Some payload ->
  stdin_write_drain payload w = (None, w1) ->
  endless w1 ->
  exists s', send fuel q s = (Pending, s') /\ io_lock s' = true.
Proof.
  intros Hendless Hstart Hp Hrc Hlock Henc Hwrite Hw1.
  assert (running s1 = true) as Hrun by (apply running_inv; eauto).
  rewrite (send_unfold fuel q s s1 Hstart Hrun Hlock).
  unfold try_finally, exchange, frame, try_except, send_try.
  unfold bind at 1. rewrite (write_query_step q payload _ (acquired s1) w Hp Henc), Hwrite.
  cbv zeta iota beta.
  unfold bind at 1. erewrite (first_read_step _ _ w1) by reflexivity.
  destruct (Hendless w1 Hw1) as (l & w2 & -> & Hw2).
  cbv zeta iota beta.
  unfold bind at 1.
  edestruct (loop_reads_forever endless Hendless fuel l) as ([l' s'] & -> & Hl);
    [reflexivity | exact Hw2 |].
  exists s'. split; [reflexivity | exact Hl].
Qed.

(** A caller that finds the lock taken stays suspended. *)
Lemma send_blocked (fuel : nat) (q : str) (s s1 : state W) :
  start_kotlin s = (Returned tt, s1) ->
  running s1 = true ->
  io_lock s1 = true ->
  send fuel q s = (Pending, s1).
Proof.
  intros Hstart Hrun Hlock.
  unfold send. unfold bind at 1. rewrite Hstart.
  unfold bind at 1. rewrite (check_proc_running s1 Hrun).
  unfold async_with_io_lock, bind, acquire. rewrite Hlock. reflexivity.
Qed.

Lemma start_kotlin_io_lock (s : state W) : io_lock (snd (start_kotlin s)) = io_lock s.
Proof.
  unfold start_kotlin, bind, gets, print, modify, launch.
  destruct (running s); [reflexivity|].
  destruct (create_subprocess_exec (launches s)); reflexivity.
Qed.

(** Whenever [send] does complete, by a response or by an exception, the
    lock is free again. *)
Lemma send_releases_lock (fuel : nat) (q : str) (s s' : state W) (r : result response) :
  io_lock s = false ->
  send fuel q s = (r, s') ->
  r <> Pending ->
  io_lock s' = false.
Proof.
  intros Hlock. unfold send. unfold bind at 1.
  pose proof (start_kotlin_io_lock s) as Hl.
  destruct (start_kotlin s) as [[[]|e|] s1]; cbn in Hl.
  - unfold bind at 1.
    destruct (check_proc s1) as [[[]|e|] s1'] eqn:Hcheck.
    + apply check_proc_returned in Hcheck as [-> _].
      unfold async_with_io_lock, bind, acquire. rewrite Hl, Hlock.
      unfold try_finally.
      destruct (exchange fuel q (acquired s1)) as [[?|?|] s2]; intros [= <- <-]; intros Hr;
        [reflexivity | reflexivity | congruence].
    + intros [= <- <-] _.
      revert Hcheck. unfold check_proc, bind, gets, raise, ret.
      destruct (proc s1) as [w|]; [destruct (returncode w)|]; intros [= _ <-]; congruence.
    + intros [= <- _]. congruence.
  - intros [= <- <-] _. congruence.
  - intros [= <- _]. congruence.
Qed.

End Gateway.

(** ** Scenarios with the stub child *)

Section Scenarios.
Import Stub.
Local Open Scope string_scope.

(** Once stdout is at end-of-stream every [readline] returns at once, with
    [b''] when the buffer is empty, and the stream stays at end-of-stream. *)
Lemma eof_reads_forever (boot : nat -> OSError + child) (c : child) :
  stdout_eof c = true ->
  exists l c', @stdout_readline _ (worker boot) 5 c = (inr l, c') /\ stdout_eof c' = true.
Proof.
  intros Heof. cbn. unfold readline.
  destruct (split_line (stdout_buffer c)) as [[l rest]|].
  - exists l. eexists. split; [reflexivity | exact Heof].
  - rewrite Heof. eexists. eexists. split; [reflexivity | exact Heof].
Qed.

(** C7. With a live, idle echo child, [send("hello")] returns
    [{"out": "ECHO:hello"}]: the reply line without its newline. *)
Theorem send_hello_to_echo (boot : nat -> OSError + child) (fuel : nat)
        (s s1 : state child) (heeds : bool) :
  @start_kotlin _ (worker boot) s = (Returned tt, s1) ->
  proc s1 = Some (fresh echo heeds) ->
  io_lock s1 = false ->
  0 < fuel ->
  exists s',
    @send _ (worker boot) fuel (lit "hello") s
    = (Returned (mkResponse (lit "ECHO:hello")), s')
    /\ io_lock s' = false
    /\ proc s' = Some (fresh echo heeds).
Proof.
  intros Hstart Hp Hlock Hfuel.
  assert (@running _ (worker boot) s1 = true) as Hrun by (unfold running; rewrite Hp; reflexivity).
  rewrite (@send_unfold _ (worker boot) fuel (lit "hello") s s1 Hstart Hrun Hlock).
  unfold try_finally.
  erewrite (@exchange_timeout _ (worker boot) fuel (lit "hello") (acquired s1) _
              (fresh echo heeds) _ _ _ (lit "ECHO:hello" ++ [NEWLINE])%list []).
  - eexists. split; [reflexivity|]. split; reflexivity.
  - exact Hp.
  - reflexivity.
  - reflexivity.
  - eapply reads_cons; [reflexivity | apply reads_nil].
  - reflexivity.
  - exact Hfuel.
Qed.



(** C2 (the code falls short).  A child that stays silent makes the first
    [readline] time out; the handler then reads [line], which was never
    bound, and [send] fails with [UnboundLocalError] instead of the "no
    output" error.  A child that exits without output puts stdout at
    end-of-stream with zero bytes read; [send] then never completes at all. *)
Theorem send_without_output (fuel : nat) :
  fst (@send _ (launching mute) fuel (lit "hello") at_import)
  = Raised (UnboundLocalError "line")
  /\ fst (@send _ (launching crash) fuel (lit "hello") at_import) = Pending.
Proof.
  split.
  - reflexivity.
  - destruct (@send_never_completes _ (launching crash)
                (fun c => stdout_eof c = true) fuel (lit "hello")
                at_import (serving (fresh crash true))
                (lit "hello" ++ [NEWLINE])%list (fresh crash true)
                (feed (lit "hello" ++ [NEWLINE])%list (fresh crash true))
                (fun c Hc => eof_reads_forever _ c Hc))
      as (s' & -> & _); reflexivity.
Qed.

(** C5, as first stated, fails: the child was killed (exit code -9) before
    the call, and [send("x")] is served by a replacement instead of raising. *)
Lemma killed_worker_is_replaced :
  proc (serving (exit_with (-9) (fresh echo true))) = Some (exit_with (-9) (fresh echo true))
  /\ @returncode _ (launching echo) (exit_with (-9) (fresh echo true)) = Some (-9)%Z
  /\ fst (@send _ (launching echo) 1 (lit "x") (serving (exit_with (-9) (fresh echo true))))
     = Returned (mkResponse (lit "ECHO:x")).
Proof. repeat split. Qed.

(** A query with a newline in it is two lines to the child, which answers
    twice within one exchange. *)
Example send_two_lines :
  fst (@send _ (launching echo) 2 (lit "x" ++ [NEWLINE] ++ lit "y")%list at_import)
  = Returned (mkResponse (lit "ECHO:x" ++ [NEWLINE] ++ lit "ECHO:y")%list).
Proof. reflexivity. Qed.

(** A child that ignores SIGTERM is killed after the grace period; one that
    heeds it is not. *)
Example stop_kotlin_stubborn :
  @stop_kotlin _ (launching echo) (serving (fresh echo false))
  = (Returned tt,
     mkState None false (Some 0%nat) 1
             [EvWait (Some (-9)%Z); EvKill; EvWaitFor 2 None; EvTerminate;
              EvCreateTask 0; EvSpawn 0]).
Proof. reflexivity. Qed.

Example stop_kotlin_graceful :
  @stop_kotlin _ (launching echo) (serving (fresh echo true))
  = (Returned tt,
     mkState None false (Some 0%nat) 1
             [EvWaitFor 2 (Some (-15)%Z); EvTerminate; EvCreateTask 0; EvSpawn 0]).
Proof. reflexivity. Qed.

(** *** The theorems above at concrete inputs *)

(** Three calls of [start_kotlin] while the echo child is alive. *)
Lemma start_kotlin_idempotent_witness :
  @running _ (launching echo) (serving (fresh echo true)) = true
  /\ exists s',
       @start_kotlin_times _ (launching echo) 3 (serving (fresh echo true)) = (Returned tt, s')
       /\ proc s' = proc (serving (fresh echo true))
       /\ launches s' = launches (serving (fresh echo true))
       /\ spawned (log s') = spawned (log (serving (fresh echo true)))
       /\ stderr_task s' = stderr_task (serving (fresh echo true))
       /\ io_lock s' = io_lock (serving (fresh echo true)).
Proof.
  split; [reflexivity|].
  exact (@start_kotlin_idempotent _ (launching echo) (serving (fresh echo true)) 3 eq_refl).
Defined.


(** A query with a newline in it, sent to the echo child. *)
Lemma send_writes_query_line_witness :
  written (log (snd (@send _ (launching echo) 2 (lit "x" ++ [NEWLINE] ++ lit "y")%list at_import)))
  = [(lit "x" ++ [NEWLINE] ++ lit "y" ++ [NEWLINE])%list]
  /\ count_newlines (lit "x" ++ [NEWLINE] ++ lit "y" ++ [NEWLINE])%list = 2.
Proof.
  exact (@send_writes_query_line _ (launching echo) 2 (lit "x" ++ [NEWLINE] ++ lit "y")%list
           at_import (serving (fresh echo true)) eq_refl eq_refl eq_refl).
Defined.

(** A child killed with code -9 before the call: the replacement is alive,
    so the exchange runs. *)
Lemma send_after_worker_exit_witness :
  @send _ (launching echo) 1 (lit "x") (serving (exit_with (-9) (fresh echo true)))
  = try_finally (@exchange _ (launching echo) 1 (lit "x")) release
      (acquired (mkState (Some (fresh echo true)) false (Some 1) 2
                         [EvCreateTask 1; EvSpawn 1; EvCreateTask 0; EvSpawn 0])).
Proof.
  exact (@send_after_worker_exit _ (launching echo) 1 (lit "x")
           (serving (exit_with (-9) (fresh echo true)))
           (exit_with (-9) (fresh echo true)) (-9)%Z eq_refl eq_refl eq_refl).
Defined.

(** The first request after import: the echo child is launched, then asked. *)
Lemma send_hello_to_echo_witness :
  exists s',
    @send _ (launching echo) 1 (lit "hello") at_import
    = (Returned (mkResponse (lit "ECHO:hello")), s')
    /\ io_lock s' = false
    /\ proc s' = Some (fresh echo true).
Proof.
  exact (send_hello_to_echo (fun _ => inr (fresh echo true)) 1 at_import
           (serving (fresh echo true)) true eq_refl eq_refl eq_refl Nat.lt_0_1).
Defined.

End Scenarios.

(** ** Concurrent calls of [send] *)

Section EventLoop.
Import Loop.
Context {W : Type} `{Worker W}.

(** *** Lists of tasks *)

Lemma contiguous_nil : contiguous [].
Proof. intros i j k t u _ _ Hi. rewrite lookup_nil in Hi. discriminate. Qed.

Lemma contiguous_run (m : nat) (t : nat) (older : list nat) :
  t ∉ older -> contiguous older -> contiguous (replicate m t ++ older).
Proof.
  intros Hnot Hold i j k a u Hij Hjk Hi Hk Hj.
  destruct (decide (k < m)) as [Hkm|Hkm].
  - rewrite lookup_app_l in Hi, Hj by (rewrite length_replicate; lia).
    apply lookup_replicate in Hi as [-> _]. apply lookup_replicate in Hj as [-> _].
    reflexivity.
  - rewrite lookup_app_r in Hk by (rewrite length_replicate; lia).
    destruct (decide (i < m)) as [Him|Him].
    + rewrite lookup_app_l in Hi by (rewrite length_replicate; lia).
      apply lookup_replicate in Hi as [-> _].
      exfalso. apply Hnot. eapply list_elem_of_lookup_2. exact Hk.
    + rewrite lookup_app_r in Hi, Hj by (rewrite length_replicate; lia).
      rewrite length_replicate in *.
      apply (Hold (i - m) (j - m) (k - m) a u); try assumption; lia.
Qed.

Lemma remove_dups_run (m : nat) (t : nat) (older : list nat) :
  t ∉ older ->
  remove_dups (replicate m t ++ older)
  = match m with O => remove_dups older | S _ => t :: remove_dups older end.
Proof.
  intros Hnot. induction m as [|m IH]; [reflexivity|].
  cbn [replicate app remove_dups].
  destruct (decide_rel elem_of t (replicate m t ++ older)) as [Hin|Hin].
  - rewrite IH. destruct m as [|m]; [|reflexivity].
    cbn in Hin. contradiction.
  - rewrite IH. destruct m as [|m]; [reflexivity|].
    exfalso. apply Hin. cbn. left.
Qed.

(** *** Traces *)

Lemma io_tasks_app (tr1 tr2 : list (nat * event)) :
  io_tasks (tr1 ++ tr2) = io_tasks tr1 ++ io_tasks tr2.
Proof. unfold io_tasks. rewrite List.filter_app, map_app. reflexivity. Qed.

Lemma acquirers_app (tr1 tr2 : list (nat * event)) :
  acquirers (tr1 ++ tr2) = acquirers tr1 ++ acquirers tr2.
Proof. unfold acquirers. rewrite List.filter_app, map_app. reflexivity. Qed.

(** The stream operations of one move are all by the task that moved. *)
Lemma io_tasks_tagged (t : nat) (evs : list event) :
  io_tasks (map (pair t) evs) = replicate (List.length (List.filter is_stream_io evs)) t.
Proof.
  unfold io_tasks. induction evs as [|e evs IH]; [reflexivity|].
  cbn [map List.filter snd]. destruct (is_stream_io e); cbn; rewrite IH; reflexivity.
Qed.

Lemma acquirers_tagged (t : nat) (evs : list event) :
  Forall (fun e => is_lock_event e = false) evs ->
  acquirers (map (pair t) evs) = [].
Proof.
  unfold acquirers. induction 1 as [|e evs He _ IH]; [reflexivity|].
  cbn [map List.filter snd]. destruct e; try discriminate He; exact IH.
Qed.

(** Stream operations by the holder leave the holder in place. *)
Lemma holder_after_inside (t : nat) (evs : list event) (tr : list (nat * event)) :
  Forall (fun e => is_lock_event e = false) evs ->
  holder_after tr = Some (Some t) ->
  holder_after (map (pair t) evs ++ tr) = Some (Some t).
Proof.
  intros Hevs Htr. induction Hevs as [|e evs He _ IH]; [exact Htr|].
  cbn [map app holder_after]. rewrite IH.
  destruct e; try discriminate He; try reflexivity; rewrite Nat.eqb_refl; reflexivity.
Qed.

(** Moves that touch neither the lock nor the streams leave it as it is. *)
Lemma holder_after_outside (t : nat) (evs : list event) (tr : list (nat * event))
      (h : option nat) :
  Forall (fun e => is_lock_event e = false /\ is_stream_io e = false) evs ->
  holder_after tr = Some h ->
  holder_after (map (pair t) evs ++ tr) = Some h.
Proof.
  intros Hevs Htr. induction Hevs as [|e evs [He1 He2] _ IH]; [exact Htr|].
  cbn [map app holder_after]. rewrite IH.
  destruct e; try discriminate He1; try discriminate He2; reflexivity.
Qed.

Lemma outside_no_stream_io (evs : list event) :
  Forall (fun e => is_lock_event e = false /\ is_stream_io e = false) evs ->
  List.filter is_stream_io evs = [].
Proof.
  induction 1 as [|e evs [_ He] _ IH]; [reflexivity|].
  cbn. rewrite He. exact IH.
Qed.

Lemma outside_no_lock_event (evs : list event) :
  Forall (fun e => is_lock_event e = false /\ is_stream_io e = false) evs ->
  Forall (fun e => is_lock_event e = false) evs.
Proof. intros Hevs. eapply Forall_impl; [exact Hevs|]. intros e [He _]. exact He. Qed.

Lemma new_events_app (s s' : state W) (evs : list event) :
  log s' = evs ++ log s -> new_events s s' = evs.
Proof.
  intros Hlog. unfold new_events. rewrite Hlog, length_app.
  replace (List.length evs + List.length (log s) - List.length (log s)) with (List.length evs) by lia.
  apply take_app_length.
Qed.

(** *** One move *)

(** A block of the [try:] statement logs stream operations and prints
    only, and leaves the lock alone. *)
Lemma try_block_log (k : try_pc) (q : str) (l l' : locals) (s s' : state W)
      (r : result unit) :
  try_block k q (l, s) = (r, (l', s')) ->
  exists evs,
    log s' = evs ++ log s
    /\ Forall (fun e => is_lock_event e = false) evs
    /\ io_lock s' = io_lock s.
Proof.
  destruct k; cbn [try_block].
  - unfold write_query, encode_payload, bind, global, proc_stdin_write_drain, on_proc, ret, raise.
    destruct (utf8_encode _) as [payload|].
    + destruct (proc s) as [w|].
      * destruct (stdin_write_drain payload w) as [err w']. intros [= _ _ <-].
        exists [EvWrite payload err]; repeat split; repeat constructor.
      * intros [= _ _ <-]. exists []; repeat split; repeat constructor.
    + intros [= _ _ <-]. exists []; repeat split; repeat constructor.
  - unfold first_read, bind, global, proc_stdout_readline, on_proc, store_line.
    destruct (proc s) as [w|].
    + destruct (stdout_readline 5 w) as [[e|data] w']; intros [= _ _ <-];
        eexists [EvReadline 5 _]; repeat split; repeat constructor.
    + intros [= _ _ <-]. exists []; repeat split; repeat constructor.
  - destruct l as [[b|]].
    + destruct (proc s) as [w|] eqn:Hp.
      * rewrite (loop_body_step b s w Hp).
        destruct (stdout_readline 5 w) as [[e|data] w']; intros [= _ _ <-];
          eexists [EvReadline 5 _; EvPrintBytes b]; repeat split; repeat constructor.
      * rewrite (loop_body_no_proc b s Hp). intros [= _ _ <-].
        exists [EvPrintBytes b]; repeat split; repeat constructor.
    + rewrite loop_body_unbound. intros [= _ _ <-]. exists []; repeat split; repeat constructor.
Qed.

Lemma done_count_enqueue (ws : list (nat * bool)) (t : nat) :
  done_count (ws ++ [(t, false)]) = done_count ws.
Proof. unfold done_count. rewrite List.filter_app, length_app. cbn. lia. Qed.

(** Every move is of one of the four kinds. *)
Lemma task_step_kind (t : nat) (q : str) (p p' : pc) (ws ws' : list (nat * bool))
      (s s' : state W) :
  task_step t q p ws s = Some (p', ws', s') ->
  exists evs, log s' = evs ++ log s /\ step_kind t p p' ws ws' s s' evs.
Proof.
  destruct p as [| | | | |k l|r]; cbn [task_step].
  - (* AtStart *)
    destruct (running s); intros [= <- <- <-].
    + exists [EvPrint "NO"%string]. split; [reflexivity|].
      apply move_outside; auto; repeat constructor.
    + exists []. split; [reflexivity|]. apply move_outside; auto.
  - (* Launching *)
    unfold launch. destruct (create_subprocess_exec (launches s)) as [e|w];
      intros [= <- <- <-].
    + exists []. split; [reflexivity|]. apply move_outside; auto.
    + eexists [EvCreateTask _; EvSpawn _]. split; [reflexivity|].
      apply move_outside; auto; repeat constructor.
  - (* AtCheck *)
    unfold check_proc, bind, gets, raise, ret.
    destruct (proc s) as [w|]; [destruct (returncode w)|]; intros [= <- <- <-];
      exists []; (split; [reflexivity|]); apply move_outside; auto.
  - (* AtAcquire *)
    destruct (io_lock s) eqn:Hlock; cbn [negb andb].
    + intros [= <- <- <-]. exists []. split; [reflexivity|].
      apply move_outside; auto using done_count_enqueue.
    + destruct ws as [|w ws].
      * intros [= <- <- <-]. exists [EvAcquire]. split; [reflexivity|].
        apply move_acquire; auto.
      * intros [= <- <- <-]. exists []. split; [reflexivity|].
        apply move_outside; auto. exact (done_count_enqueue (w :: ws) t).
  - (* Waiting *)
    destruct (woken t ws) eqn:Hwoken; [|discriminate].
    intros [= <- <- <-]. exists [EvAcquire]. split; [reflexivity|].
    apply move_acquire; auto.
  - (* InTry *)
    destruct (try_block k q (l, s)) as [[[]|e|] [l1 s1]] eqn:Hblock; [| |discriminate].
    + intros [= <- <- <-].
      destruct (try_block_log _ _ _ _ _ _ _ Hblock) as (evs & Hlog & Hevs & Hlock).
      exists evs. split; [exact Hlog|]. apply move_inside; auto.
    + destruct (try_block_log _ _ _ _ _ _ _ Hblock) as (evs & Hlog & Hevs & Hlock).
      pose proof (handled_keeps_state e (l1, s1)) as Hkeep.
      destruct (handled e (l1, s1)) as [r [l2 s2]]. cbn in Hkeep.
      injection Hkeep as -> ->.
      intros [= <- <- <-].
      exists (EvRelease :: evs). split; [cbn; rewrite Hlog; reflexivity|].
      apply (move_release _ _ _ _ _ _ _ _ evs); auto.
  - discriminate.
Qed.

(** *** The waiters queue *)

Lemma done_count_cons (w : nat * bool) (ws : list (nat * bool)) :
  done_count (w :: ws) = (if snd w then 1 else 0) + done_count ws.
Proof. unfold done_count. cbn. destruct (snd w); reflexivity. Qed.

Lemma done_count_wake (ws : list (nat * bool)) :
  done_count ws = 0 -> done_count (wake_up_first ws) <= 1.
Proof.
  destruct ws as [|[t d] ws]; [cbn; lia|].
  unfold wake_up_first. rewrite !done_count_cons. cbn. destruct d; lia.
Qed.

Lemma done_count_remove_le (t : nat) (ws : list (nat * bool)) :
  done_count (remove_waiter t ws) <= done_count ws.
Proof.
  induction ws as [|w ws IH]; [reflexivity|].
  cbn [remove_waiter List.filter]. fold (remove_waiter t ws).
  destruct (negb (fst w =? t)); rewrite ?done_count_cons; lia.
Qed.

(** The future that let a waiter through is consumed by it. *)
Lemma done_count_remove_woken (t : nat) (ws : list (nat * bool)) :
  woken t ws = true -> done_count (remove_waiter t ws) < done_count ws.
Proof.
  induction ws as [|w ws IH]; [discriminate|].
  cbn [woken existsb remove_waiter List.filter].
  fold (woken t ws). fold (remove_waiter t ws).
  pose proof (done_count_remove_le t ws) as Hle.
  destruct (fst w =? t) eqn:Hw; cbn [negb andb orb].
  - destruct (snd w) eqn:Hd; cbn [orb].
    + intros _. rewrite done_count_cons, Hd. lia.
    + intros Hwoken. rewrite done_count_cons, Hd. apply IH in Hwoken. lia.
  - intros Hwoken. rewrite !done_count_cons. apply IH in Hwoken. lia.
Qed.

Lemma lookup_moved (ts : list task) (t u : nat) (tk' tku : task) :
  <[t := tk']> ts !! u = Some tku ->
  (u = t /\ tku = tk') \/ (u <> t /\ ts !! u = Some tku).
Proof.
  intros Hu. apply list_lookup_insert_Some in Hu as [(-> & -> & _)|(Hne & Hu)]; auto.
Qed.

(** What a move adds to the stream operations and to the acquisitions. *)
Lemma io_tasks_moved (t : nat) (evs : list event) (tr : list (nat * event)) :
  io_tasks (map (pair t) evs ++ tr)
  = replicate (List.length (List.filter is_stream_io evs)) t ++ io_tasks tr.
Proof. rewrite io_tasks_app, io_tasks_tagged. reflexivity. Qed.

Lemma acquirers_moved (t : nat) (evs : list event) (tr : list (nat * event)) :
  Forall (fun e => is_lock_event e = false) evs ->
  acquirers (map (pair t) evs ++ tr) = acquirers tr.
Proof. intros Hevs. rewrite acquirers_app, (acquirers_tagged t evs Hevs). reflexivity. Qed.

Lemma not_in_run (u t : nat) (m : nat) (l : list nat) :
  u <> t -> u ∉ l -> u ∉ replicate m t ++ l.
Proof.
  intros Hne Hl Hin. apply elem_of_app in Hin as [Hin|Hin]; [|contradiction].
  apply elem_of_replicate in Hin as [-> _]. contradiction.
Qed.

(** *** The invariant is kept by every move *)

Lemma move_preserves_invariant (c : config W) (h : option nat) (t : nat) (tk : task)
      (p' : pc) (ws' : list (nat * bool)) (s' : state W) (evs : list event) :
  invariant c h ->
  tasks c !! t = Some tk ->
  step_kind t (at_pc tk) p' (waiters c) ws' (glob c) s' evs ->
  exists h',
    invariant (mkConfig (<[t := mkTask (query tk) p']> (tasks c)) ws' s'
                        (map (pair t) evs ++ trace c)) h'.
Proof.
  intros [Hh Hin Hlock Hwoken Hfresh Honce Hshape] Htk Hkind.
  destruct Hkind as [Hp Hp' Hevs Hl Hd | Hp Hp' -> Hvia Hl | Hp Hp' Hevs Hl -> |
                     evs0 Hp Hp' -> Hevs Hl ->].
  - (* a move outside the lock *)
    pose proof (outside_no_lock_event evs Hevs) as Hnolock.
    assert (io_tasks (map (pair t) evs ++ trace c) = io_tasks (trace c)) as Hio.
    { rewrite io_tasks_moved, (outside_no_stream_io evs Hevs). reflexivity. }
    pose proof (acquirers_moved t evs (trace c) Hnolock) as Hacq.
    exists h. constructor; cbn [tasks waiters glob trace].
    + exact (holder_after_outside t evs (trace c) h Hevs Hh).
    + intros u tku Hu Hutry. apply lookup_moved in Hu as [[-> ->]|[Hne Hu]].
      * cbn in Hutry. destruct p'; cbn in *; destruct Hp'; discriminate.
      * exact (Hin u tku Hu Hutry).
    + rewrite Hl. exact Hlock.
    + rewrite Hd. exact Hwoken.
    + intros u tku Hu Hub. rewrite Hio, Hacq.
      apply lookup_moved in Hu as [[-> ->]|[Hne Hu]].
      * exact (Hfresh t tk Htk Hp).
      * exact (Hfresh u tku Hu Hub).
    + rewrite Hacq. exact Honce.
    + unfold io_shape in *. rewrite Hio, Hacq. exact Hshape.
  - (* the lock is acquired *)
    assert (h = None) as ->.
    { destruct Hvia as [(Hfree & _ & _)|(Hwok & _)]; [exact (Hlock Hfree)|].
      destruct h as [u|]; [|reflexivity].
      apply done_count_remove_woken in Hwok. lia. }
    destruct (Hfresh t tk Htk Hp) as [Hnacq Hnio].
    destruct Hshape as [Hcont Hsub].
    exists (Some t). constructor; cbn [tasks waiters glob trace map app].
    + cbn [holder_after]. rewrite Hh. reflexivity.
    + intros u tku Hu Hutry. apply lookup_moved in Hu as [[-> ->]|[Hne Hu]]; [reflexivity|].
      pose proof (Hin u tku Hu Hutry). discriminate.
    + rewrite Hl. discriminate.
    + destruct Hvia as [(_ & _ & ->)|(Hwok & ->)]; [reflexivity|].
      apply done_count_remove_woken in Hwok. lia.
    + intros u tku Hu Hub. apply lookup_moved in Hu as [[-> ->]|[Hne Hu]].
      * destruct p'; discriminate.
      * destruct (Hfresh u tku Hu Hub) as [Hua Hui]. split; [|exact Hui].
        cbn. intros Hin'. apply elem_of_cons in Hin' as [->|Hin']; contradiction.
    + cbn. apply NoDup_cons_2; assumption.
    + exists 0, (io_tasks (trace c)), (acquirers (trace c)). repeat split; assumption.
  - (* a move under the lock *)
    assert (h = Some t) as -> by exact (Hin t tk Htk Hp).
    pose proof (acquirers_moved t evs (trace c) Hevs) as Hacq.
    destruct Hshape as (k & older & earlier & Hio & Hnot & Hcont & Hacqs & Hsub).
    exists (Some t). constructor; cbn [tasks waiters glob trace].
    + exact (holder_after_inside t evs (trace c) Hevs Hh).
    + intros u tku Hu Hutry. apply lookup_moved in Hu as [[-> ->]|[Hne Hu]]; [reflexivity|].
      exact (Hin u tku Hu Hutry).
    + rewrite Hl. exact Hlock.
    + exact Hwoken.
    + intros u tku Hu Hub. apply lookup_moved in Hu as [[-> ->]|[Hne Hu]].
      * destruct p'; discriminate.
      * destruct (Hfresh u tku Hu Hub) as [Hua Hui]. rewrite Hacq, io_tasks_moved.
        split; [exact Hua|]. apply not_in_run; assumption.
    + rewrite Hacq. exact Honce.
    + exists (List.length (List.filter is_stream_io evs) + k), older, earlier.
      rewrite io_tasks_moved, Hio, Hacq, replicate_add, app_assoc. repeat split; assumption.
  - (* the lock is released *)
    assert (h = Some t) as -> by exact (Hin t tk Htk Hp).
    pose proof (acquirers_moved t evs0 (trace c) Hevs) as Hacq.
    destruct Hshape as (k & older & earlier & Hio & Hnot & Hcont & Hacqs & Hsub).
    assert (io_tasks (map (pair t) (EvRelease :: evs0) ++ trace c)
            = replicate (List.length (List.filter is_stream_io evs0) + k) t ++ older) as Hio'.
    { cbn [map app]. unfold io_tasks at 1. cbn [List.filter snd is_stream_io].
      fold (io_tasks (map (pair t) evs0 ++ trace c)).
      rewrite io_tasks_moved, Hio, replicate_add, app_assoc. reflexivity. }
    assert (acquirers (map (pair t) (EvRelease :: evs0) ++ trace c) = t :: earlier) as Hacq'.
    { cbn [map app]. unfold acquirers at 1. cbn [List.filter snd].
      fold (acquirers (map (pair t) evs0 ++ trace c)). rewrite Hacq. exact Hacqs. }
    exists None. constructor; cbn [tasks waiters glob trace].
    + cbn [map app holder_after].
      rewrite (holder_after_inside t evs0 (trace c) Hevs Hh), Nat.eqb_refl. reflexivity.
    + intros u tku Hu Hutry. apply lookup_moved in Hu as [[-> ->]|[Hne Hu]].
      * destruct p'; discriminate.
      * pose proof (Hin u tku Hu Hutry) as [= ->]. contradiction.
    + reflexivity.
    + apply done_count_wake. exact Hwoken.
    + intros u tku Hu Hub. apply lookup_moved in Hu as [[-> ->]|[Hne Hu]].
      * destruct p'; discriminate.
      * destruct (Hfresh u tku Hu Hub) as [Hua Hui]. rewrite Hacq', Hio'. split.
        -- rewrite <- Hacqs. exact Hua.
        -- rewrite Hio in Hui. apply not_in_run; [exact Hne|].
           intros Hin'. apply Hui. apply elem_of_app. right. exact Hin'.
    + rewrite Hacq', <- Hacqs. exact Honce.
    + unfold io_shape. rewrite Hio', Hacq'. split.
      * apply contiguous_run; assumption.
      * rewrite (remove_dups_run _ t older Hnot).
        destruct (List.length (List.filter is_stream_io evs0) + k).
        -- apply sublist_cons. exact Hsub.
        -- apply sublist_skip. exact Hsub.
Qed.

Lemma step_invariant (c c' : config W) (h : option nat) (t : nat) :
  invariant c h -> step t c = Some c' -> exists h', invariant c' h'.
Proof.
  intros Hinv. unfold step.
  destruct (tasks c !! t) as [tk|] eqn:Htk; [|discriminate].
  destruct (task_step t (query tk) (at_pc tk) (waiters c) (glob c))
    as [[[p' ws'] s']|] eqn:Hstep; [|discriminate].
  intros [= <-].
  destruct (task_step_kind _ _ _ _ _ _ _ _ Hstep) as (evs & Hlog & Hkind).
  rewrite (new_events_app _ _ _ Hlog).
  exact (move_preserves_invariant c h t tk p' ws' s' evs Hinv Htk Hkind).
Qed.

Lemma run_invariant (schedule : list nat) (c : config W) (h : option nat) :
  invariant c h -> exists h', invariant (run schedule c) h'.
Proof.
  revert c h. induction schedule as [|t schedule IH]; intros c h Hinv; cbn [run].
  - exists h. exact Hinv.
  - destruct (step t c) as [c'|] eqn:Hstep.
    + destruct (step_invariant c c' h t Hinv Hstep) as [h' Hinv']. exact (IH c' h' Hinv').
    + exact (IH c h Hinv).
Qed.

Lemma lookup_arrivals (qs : list str) (t : nat) (tk : task) :
  map (fun q => mkTask q AtStart) qs !! t = Some tk -> at_pc tk = AtStart.
Proof.
  revert t. induction qs as [|q qs IH]; intros [|t]; cbn; try discriminate.
  - intros [= <-]. reflexivity.
  - apply IH.
Qed.

Lemma init_invariant (qs : list str) (p : option W) (n : nat) :
  invariant (init qs p n) None.
Proof.
  constructor; cbn.
  - reflexivity.
  - intros t tk Htk. rewrite (lookup_arrivals qs t tk Htk). discriminate.
  - reflexivity.
  - unfold done_count. cbn. lia.
  - intros t tk _ _. split; apply not_elem_of_nil.
  - apply NoDup_nil_2.
  - split; [apply contiguous_nil | apply sublist_nil].
Qed.

Lemma io_shape_serial (h : option nat) (tr : list (nat * event)) :
  io_shape h tr ->
  contiguous (io_tasks tr) /\ sublist (remove_dups (io_tasks tr)) (acquirers tr).
Proof.
  destruct h as [u|]; [|intros Hshape; exact Hshape].
  intros (k & older & earlier & -> & Hnot & Hcont & -> & Hsub). split.
  - apply contiguous_run; assumption.
  - rewrite (remove_dups_run k u older Hnot).
    destruct k; [apply sublist_cons | apply sublist_skip]; exact Hsub.
Qed.

(** C4. However the event loop interleaves any number of [send] calls, the
    trace replays as a lock discipline: a task acquires only a free lock,
    only the holder touches the child's streams, only the holder releases.
    Each task acquires at most once; the stream operations of a task are
    consecutive, with nothing of another task in between; and the tasks
    come to the streams in the order in which they acquired the lock. *)
Theorem sends_do_not_interleave (qs : list str) (p : option W) (n : nat)
        (schedule : list nat) :
  let tr := trace (run schedule (init qs p n)) in
  (exists h, holder_after tr = Some h)
  /\ NoDup (acquirers tr)
  /\ contiguous (io_tasks tr)
  /\ sublist (remove_dups (io_tasks tr)) (acquirers tr).
Proof.
  destruct (run_invariant schedule (init qs p n) None (init_invariant qs p n))
    as [h [Hh _ _ _ _ Honce Hshape]].
  cbv zeta. split; [exists h; exact Hh|]. split; [exact Honce|].
  exact (io_shape_serial h _ Hshape).
Qed.

(** *** A single task behaves as the coroutine [send] *)

Lemma run_app (sch1 sch2 : list nat) (c : config W) :
  run (sch1 ++ sch2) c = run sch2 (run sch1 c).
Proof. revert c. induction sch1 as [|t sch1 IH]; intros c; [reflexivity|]. cbn. apply IH. Qed.

Lemma solo_reaches_refl (q : str) (p : pc) (s : state W) : solo_reaches q p s p s.
Proof. intros tr. exists 0, tr. reflexivity. Qed.

Lemma solo_reaches_step (q : str) (p p1 p' : pc) (s s1 s' : state W) :
  task_step 0 q p [] s = Some (p1, [], s1) ->
  solo_reaches q p1 s1 p' s' ->
  solo_reaches q p s p' s'.
Proof.
  intros Hstep Hrest tr.
  destruct (Hrest (map (pair 0) (new_events s s1) ++ tr)) as (k & tr' & Hk).
  exists (S k), tr'. cbn [replicate run]. unfold step, solo. cbn [tasks waiters glob trace].
  cbn [lookup list_lookup]. cbn [query at_pc]. rewrite Hstep. exact Hk.
Qed.

Lemma solo_try_next (k : try_pc) (q : str) (l l1 : locals) (s s1 s' : state W) (p' : pc) :
  try_block k q (l, s) = (Returned tt, (l1, s1)) ->
  solo_reaches q (InTry (try_next k) l1) s1 p' s' ->
  solo_reaches q (InTry k l) s p' s'.
Proof.
  intros Hblock. apply solo_reaches_step. cbn [task_step]. rewrite Hblock. reflexivity.
Qed.

Lemma solo_try_raise (k : try_pc) (q : str) (l l1 : locals) (s s1 : state W) (e : exn) :
  try_block k q (l, s) = (Raised e, (l1, s1)) ->
  solo_reaches q (InTry k l) s (Done (fst (handled e (l1, s1)))) (release s1).
Proof.
  intros Hblock. eapply solo_reaches_step; [|apply solo_reaches_refl].
  cbn [task_step]. rewrite Hblock.
  pose proof (handled_keeps_state e (l1, s1)) as Hkeep.
  destruct (handled e (l1, s1)) as [r [l2 s2]]. cbn in Hkeep. injection Hkeep as -> ->.
  reflexivity.
Qed.

Lemma solo_loop (q : str) (fuel : nat) (l l' : locals) (s s' : state W) (e : exn) :
  while_ fuel (ret true) loop_body (l, s) = (Raised e, (l', s')) ->
  solo_reaches q (InTry TLoop l) s (Done (fst (handled e (l', s')))) (release s').
Proof.
  revert l s. induction fuel as [|fuel IH]; intros l s; cbn [while_].
  - unfold pending. discriminate.
  - unfold bind at 1, ret at 1. unfold bind at 1.
    destruct (loop_body (l, s)) as [[[]|e1|] [l1 s1]] eqn:Hbody.
    + intros Hloop. apply (solo_try_next TLoop q l l1 s s1); [exact Hbody|].
      exact (IH l1 s1 Hloop).
    + intros [= <- <- <-]. exact (solo_try_raise TLoop q l l1 s s1 e1 Hbody).
    + discriminate.
Qed.

Lemma exchange_raised (fuel : nat) (q : str) (s : state W) (e : exn) (ls : locals * state W) :
  send_try fuel q (mkLocals None, s) = (Raised e, ls) ->
  exchange fuel q s = (fst (handled e ls), snd (snd (handled e ls))).
Proof.
  intros Htry. unfold exchange, frame, try_except, handled. rewrite Htry.
  destruct (send_except e) as [h|]; [|destruct ls; reflexivity].
  destruct (h ls) as [r [l' s']]. reflexivity.
Qed.

(** The exchange, as the moves of one task that holds the lock. *)
Lemma exchange_agrees (fuel : nat) (q : str) (s s' : state W) (r : result response) :
  exchange fuel q s = (r, s') ->
  r <> Pending ->
  solo_reaches q (InTry TWrite (mkLocals None)) s (Done r) (release s').
Proof.
  intros Hex Hr.
  destruct (send_try fuel q (mkLocals None, s)) as [[r0|e|] [l' s2]] eqn:Htry.
  - apply send_try_outcome in Htry; [contradiction|reflexivity].
  - rewrite (exchange_raised fuel q s e _ Htry) in Hex.
    pose proof (handled_keeps_state e (l', s2)) as Hkeep.
    injection Hex as <- <-. rewrite Hkeep. cbn [snd].
    revert Htry. unfold send_try. unfold bind at 1.
    destruct (write_query q (mkLocals None, s)) as [[[]|e1|] [l1 s1]] eqn:Hw.
    + unfold bind at 1.
      destruct (first_read (l1, s1)) as [[[]|e2|] [l2 s3]] eqn:Hf.
      * unfold bind at 1.
        destruct (while_ fuel (ret true) loop_body (l2, s3)) as [[[]|e3|] [l3 s4]] eqn:Hloop.
        -- exfalso. exact (loop_never_returns _ _ _ _ Hloop).
        -- intros [= <- <- <-].
           apply (solo_try_next TWrite q _ l1 s s1); [exact Hw|].
           apply (solo_try_next TFirstRead q _ l2 s1 s3); [exact Hf|].
           exact (solo_loop q fuel l2 l3 s3 s4 e3 Hloop).
        -- discriminate.
      * intros [= <- <- <-].
        apply (solo_try_next TWrite q _ l1 s s1); [exact Hw|].
        exact (solo_try_raise TFirstRead q l1 l2 s1 s3 e2 Hf).
      * discriminate.
    + intros [= <- <- <-]. exact (solo_try_raise TWrite q _ l1 s s1 e1 Hw).
    + discriminate.
  - exfalso. apply Hr. unfold exchange, frame, try_except in Hex. rewrite Htry in Hex.
    injection Hex as <- _. reflexivity.
Qed.

(** Whatever [send] returns or raises, a task running alone on the event
    loop ends with the same result in the same state. *)
Lemma send_agrees_with_loop (fuel : nat) (q : str) (s s' : state W) (r : result response) :
  io_lock s = false ->
  send fuel q s = (r, s') ->
  r <> Pending ->
  solo_reaches q AtStart s (Done r) s'.
Proof.
  intros Hlock. unfold send. unfold bind at 1.
  pose proof (start_kotlin_io_lock s) as Hl. rewrite Hlock in Hl.
  assert (forall s1,
             (let '(r1, s1') := check_proc s1 in
              match r1 with
              | Returned _ => async_with_io_lock (exchange fuel q) s1'
              | Raised e => (Raised e, s1')
              | Pending => (Pending, s1')
              end) = (r, s') ->
             io_lock s1 = false -> r <> Pending ->
             solo_reaches q AtCheck s1 (Done r) s') as Hcheck.
  { intros s1 Hrest Hl1 Hr.
    destruct (check_proc s1) as [[[]|e|] s1'] eqn:Hc.
    - apply check_proc_returned in Hc as Hc'. destruct Hc' as [-> _].
      eapply solo_reaches_step; [cbn [task_step]; rewrite Hc; reflexivity|].
      eapply solo_reaches_step;
        [cbn [task_step]; rewrite Hl1; reflexivity|].
      revert Hrest. unfold async_with_io_lock, bind, acquire. rewrite Hl1.
      unfold try_finally.
      destruct (exchange fuel q (acquired s1)) as [[r2|e2|] s2] eqn:Hex.
      + intros [= <- <-]. exact (exchange_agrees fuel q _ _ _ Hex Hr).
      + intros [= <- <-]. exact (exchange_agrees fuel q _ _ _ Hex Hr).
      + intros [= <- _]. contradiction.
    - injection Hrest as <- <-.
      eapply solo_reaches_step; [cbn [task_step]; rewrite Hc; reflexivity|].
      apply solo_reaches_refl.
    - injection Hrest as <- _. contradiction. }
  destruct (running s) eqn:Hrun.
  - rewrite (start_kotlin_running s Hrun). intros Hsend Hr.
    eapply solo_reaches_step; [cbn [task_step]; rewrite Hrun; reflexivity|].
    apply Hcheck; [|exact Hlock|exact Hr].
    revert Hsend. unfold bind at 1.
    destruct (check_proc (emit (EvPrint "NO"%string) s)) as [[[]|e|] s1']; auto.
  - rewrite (start_kotlin_not_running s Hrun) in *. intros Hsend Hr.
    eapply solo_reaches_step; [cbn [task_step]; rewrite Hrun; reflexivity|].
    destruct (launch s) as [[[]|e|] s1] eqn:Hlaunch; cbn in Hl.
    + eapply solo_reaches_step; [cbn [task_step]; rewrite Hlaunch; reflexivity|].
      apply Hcheck; [|exact Hl|exact Hr].
      revert Hsend. unfold bind at 1.
      destruct (check_proc s1) as [[[]|e|] s1']; auto.
    + injection Hsend as <- <-.
      eapply solo_reaches_step; [cbn [task_step]; rewrite Hlaunch; reflexivity|].
      apply solo_reaches_refl.
    + injection Hsend as <- _. contradiction.
Qed.

End EventLoop.

(** Two calls arrive together while no child exists, and the event loop
    alternates between them: both launch a child (the first launch is lost),
    the second call waits for the lock, and the exchanges take turns. *)
Example two_sends_take_turns :
  let c := @Loop.run _ (Stub.launching Stub.echo)
             [0; 1; 0; 1; 0; 1; 0; 1; 0; 1; 0; 1; 0; 1; 0; 1; 1; 1; 1; 1]
             (Loop.init [lit "a"; lit "b"] None 0) in
  map Loop.at_pc (Loop.tasks c)
  = [Loop.Done (Returned (mkResponse (lit "ECHO:a")));
     Loop.Done (Returned (mkResponse (lit "ECHO:b")))]
  /\ Loop.io_tasks (Loop.trace c) = [1; 1; 1; 0; 0; 0]
  /\ Loop.acquirers (Loop.trace c) = [1; 0]
  /\ launches (Loop.glob c) = 2.
Proof. vm_compute. repeat split. Qed.

(** * Further properties *)

(** ** What [send] can raise, and how stream errors surface *)

Section GatewayErrors.
Context {W : Type} `{Worker W}.
Local Open Scope string_scope.






(** A [readline] fails, other than by timing out, after the lines
    [first :: rest] were read: what was read is dropped and the lock is
    released; [BrokenPipeError] is reported as the HTTP 500 "stdin closed",
    any other error propagates as it is. *)
Theorem send_read_failure (fuel : nat) (q : str) (s s1 : state W) (payload : bytes)
        (w w1 w2 w3 : W) (first : bytes) (rest : list bytes) (oe : OSError) :
  start_kotlin s = (Returned tt, s1) ->
  proc s1 = Some w ->
  returncode w = None ->
  io_lock s1 = false ->
  utf8_encode (q ++ [NEWLINE])%list = Some payload ->
  stdin_write_drain payload w = (None, w1) ->
  reads w1 (first :: rest) w2 ->
  stdout_readline 5 w2 = (inl oe, w3) ->
  oe <> TimeoutError ->
  List.length rest < fuel ->
  exists s',
    send fuel q s
    = (Raised match oe with
              | BrokenPipeError =>
                  HTTPException 500 "Kotlin process stdin closed (BrokenPipe)."
              | _ => OSErr oe
              end, s')
    /\ io_lock s' = false
    /\ proc s' = Some w3.
Proof.
  intros Hstart Hp Hrc Hlock Henc Hwrite Hreads Hlast Hoe Hfuel.
  assert (running s1 = true) as Hrun by (apply running_inv; eauto).
  rewrite (send_unfold fuel q s s1 Hstart Hrun Hlock).
  inversion Hreads as [|? w1' ? ? ? Hfirst Hrest]; subst.
  unfold try_finally, exchange, frame, try_except, send_try.
  unfold bind at 1. rewrite (write_query_step q payload _ (acquired s1) w Hp Henc), Hwrite.
  cbv zeta iota beta.
  unfold bind at 1. erewrite (first_read_step _ _ w1) by reflexivity. rewrite Hfirst.
  cbv zeta iota beta.
  unfold bind at 1.
  erewrite (loop_reads_raise rest w1' w2 Hrest fuel first _ oe w3);
    [| reflexivity | exact Hlast | exact Hfuel].
  destruct oe; try contradiction; cbn; eexists; split; try reflexivity; split; reflexivity.
Qed.

(** *** What an exchange leaves alone *)

Lemma only_traffic_refl (s : state W) : only_traffic s s.
Proof.
  unfold only_traffic. repeat split; eauto. exists []. split; reflexivity.
Qed.

Lemma only_traffic_trans (s1 s2 s3 : state W) :
  only_traffic s1 s2 -> only_traffic s2 s3 -> only_traffic s1 s3.
Proof.
  intros (Hl1 & Hn1 & Ht1 & Hp1 & evs1 & Hlog1 & He1) (Hl2 & Hn2 & Ht2 & Hp2 & evs2 & Hlog2 & He2).
  unfold only_traffic. repeat split; try congruence.
  - intros w Hw. destruct (Hp1 w Hw) as [w' Hw']. exact (Hp2 w' Hw').
  - exists (evs2 ++ evs1)%list. split.
    + rewrite Hlog2, Hlog1, app_assoc. reflexivity.
    + rewrite forallb_app, He1, He2. reflexivity.
Qed.

Lemma only_traffic_io (s : state W) (w' : W) (evs : list event) :
  forallb is_traffic evs = true ->
  only_traffic s (after_io w' evs s).
Proof.
  intros Hevs. unfold only_traffic, after_io. cbn. repeat split; eauto.
Qed.

Lemma block_only_traffic (k : Loop.try_pc) (q : str) (l : locals) (s : state W) :
  only_traffic s (snd (snd (Loop.try_block k q (l, s)))).
Proof.
  destruct k; cbn [Loop.try_block].
  - unfold write_query, encode_payload, bind, global, proc_stdin_write_drain, on_proc, ret, raise.
    destruct (utf8_encode _) as [payload|]; [|apply only_traffic_refl].
    destruct (proc s) as [w|] eqn:Hp; [|apply only_traffic_refl].
    destruct (stdin_write_drain payload w) as [[oe|] w'];
      apply (only_traffic_io s w' [EvWrite payload _]); reflexivity.
  - destruct (proc s) as [w|] eqn:Hp.
    + rewrite (first_read_step l s w Hp).
      destruct (stdout_readline 5 w) as [[oe|data] w'];
        apply (only_traffic_io s w' [EvReadline 5 _]); reflexivity.
    + unfold first_read, bind, global, proc_stdout_readline, on_proc. cbn. rewrite Hp.
      apply only_traffic_refl.
  - destruct l as [[b|]]; [|rewrite loop_body_unbound; apply only_traffic_refl].
    destruct (proc s) as [w|] eqn:Hp.
    + rewrite (loop_body_step b s w Hp).
      destruct (stdout_readline 5 w) as [[oe|data] w'];
        apply (only_traffic_io s w' [EvReadline 5 _; EvPrintBytes b]); reflexivity.
    + rewrite (loop_body_no_proc b s Hp). unfold only_traffic, emit. cbn.
      repeat split; try congruence. exists [EvPrintBytes b]. split; reflexivity.
Qed.

Lemma loop_only_traffic (fuel : nat) (l : locals) (s : state W) :
  only_traffic s (snd (snd (while_ fuel (ret true) loop_body (l, s)))).
Proof.
  revert l s. induction fuel as [|fuel IH]; intros l s; cbn [while_];
    [apply only_traffic_refl|].
  unfold bind at 1, ret at 1. unfold bind at 1.
  pose proof (block_only_traffic Loop.TLoop [] l s) as Hb.
  cbn [Loop.try_block] in Hb.
  destruct (loop_body (l, s)) as [[[]|e|] [l1 s1]]; cbn [snd] in *; try exact Hb.
  exact (only_traffic_trans _ _ _ Hb (IH l1 s1)).
Qed.

Lemma send_try_only_traffic (fuel : nat) (q : str) (l : locals) (s : state W) :
  only_traffic s (snd (snd (send_try fuel q (l, s)))).
Proof.
  unfold send_try. unfold bind at 1.
  pose proof (block_only_traffic Loop.TWrite q l s) as Hw. cbn [Loop.try_block] in Hw.
  destruct (write_query q (l, s)) as [[[]|e|] [l1 s1]]; cbn [snd] in *; try exact Hw.
  unfold bind at 1.
  pose proof (block_only_traffic Loop.TFirstRead q l1 s1) as Hr. cbn [Loop.try_block] in Hr.
  destruct (first_read (l1, s1)) as [[[]|e|] [l2 s2]]; cbn [snd] in *;
    try exact (only_traffic_trans _ _ _ Hw Hr).
  unfold bind at 1.
  pose proof (loop_only_traffic fuel l2 s2) as Hloop.
  destruct (while_ fuel (ret true) loop_body (l2, s2)) as [[[]|e|] [l3 s3]] eqn:Hwhile;
    cbn [snd] in *;
    try exact (only_traffic_trans _ _ _ Hw (only_traffic_trans _ _ _ Hr Hloop)).
  exfalso. exact (loop_never_returns _ _ _ _ Hwhile).
Qed.

Lemma exchange_only_traffic (fuel : nat) (q : str) (s : state W) :
  only_traffic s (snd (exchange fuel q s)).
Proof. rewrite exchange_state. apply send_try_only_traffic. Qed.

Lemma spawned_traffic (evs l : list event) :
  forallb is_traffic evs = true -> spawned (evs ++ l) = spawned l.
Proof.
  induction evs as [|e evs IH]; [reflexivity|].
  cbn [forallb]. intros Hevs. apply andb_prop in Hevs as [He Hevs].
  cbn [app]. unfold spawned in *. cbn [List.filter].
  destruct e; try discriminate He; exact (IH Hevs).
Qed.

(** While a live child exists, [send] launches nothing: whatever the
    exchange does, the launch count, the spawn events and the drain task
    stay as they were, and [proc] stays bound. *)
Theorem send_keeps_the_child (fuel : nat) (q : str) (s : state W) :
  running s = true ->
  launches (snd (send fuel q s)) = launches s
  /\ spawned (log (snd (send fuel q s))) = spawned (log s)
  /\ stderr_task (snd (send fuel q s)) = stderr_task s
  /\ exists w', proc (snd (send fuel q s)) = Some w'.
Proof.
  intros Hrun.
  pose proof Hrun as Hproc. apply running_inv in Hproc as (w & Hw & _).
  pose proof (start_kotlin_running s Hrun) as Hstart.
  destruct (io_lock s) eqn:Hlock.
  - rewrite (send_blocked fuel q s _ Hstart Hrun Hlock). cbn. eauto.
  - rewrite (send_unfold fuel q s _ Hstart Hrun Hlock).
    pose proof (exchange_only_traffic fuel q (acquired (emit (EvPrint "NO") s)))
      as (_ & Hn & Ht & Hp & evs & Hlog & Hevs).
    destruct (Hp w Hw) as [w' Hw'].
    assert (spawned (log (snd (exchange fuel q (acquired (emit (EvPrint "NO") s)))))
            = spawned (log s)) as Hsp.
    { rewrite Hlog. rewrite (spawned_traffic evs _ Hevs). reflexivity. }
    unfold try_finally.
    destruct (exchange fuel q (acquired (emit (EvPrint "NO") s))) as [[r|e|] s2];
      cbn [snd] in *; unfold release; cbn [launches log stderr_task proc emit set_io_lock];
      repeat split; eauto.
Qed.

End GatewayErrors.

(** ** More about the supervisor *)

Section SupervisorCycles.
Context {W : Type} `{Worker W}.
Local Open Scope string_scope.

(** Whenever [stop_kotlin] returns, no process is bound, and the lock, the
    launch count and the drain task are as before. *)
Lemma stop_kotlin_returned (s s1 : state W) :
  stop_kotlin s = (Returned tt, s1) ->
  proc s1 = None /\ io_lock s1 = io_lock s /\ launches s1 = launches s
  /\ stderr_task s1 = stderr_task s.
Proof.
  pose proof (stop_kotlin_cases s) as Hc.
  destruct (proc s) as [w|] eqn:Hp.
  - destruct (returncode w).
    + rewrite Hc. intros [= <-]. auto.
    + destruct (wait_for_exit 2 (terminate w)) as [[code|] w1].
      * rewrite Hc. intros [= <-]. auto.
      * destruct (wait_exit (kill w1)) as [[code|] w2]; rewrite Hc; [|discriminate].
        intros [= <-]. auto.
  - rewrite Hc. intros [= <-]. auto.
Qed.

(** Stopping twice: once [stop_kotlin] has returned, a second call changes
    nothing -- it signals no process and logs nothing. *)
Theorem stop_kotlin_twice (s s1 : state W) :
  stop_kotlin s = (Returned tt, s1) ->
  stop_kotlin s1 = (Returned tt, s1).
Proof.
  intros Hstop. apply stop_kotlin_returned in Hstop as (Hp & _).
  pose proof (stop_kotlin_cases s1) as Hc. rewrite Hp in Hc. exact Hc.
Qed.

(** Restart: after [stop_kotlin] has returned, [start_kotlin] makes a launch
    attempt, and when it succeeds the new child is bound to [proc] with a
    drain task of its own. *)
Theorem start_kotlin_after_stop (s s1 : state W) :
  stop_kotlin s = (Returned tt, s1) ->
  match create_subprocess_exec (launches s) with
  | inr w =>
      start_kotlin s1
      = (Returned tt,
         mkState (Some w) (io_lock s) (Some (launches s)) (S (launches s))
                 (EvCreateTask (launches s) :: EvSpawn (launches s) :: log s1))
  | inl e =>
      start_kotlin s1
      = (Raised (OSErr e),
         mkState None (io_lock s) (stderr_task s) (S (launches s)) (log s1))
  end.
Proof.
  intros Hstop. apply stop_kotlin_returned in Hstop as (Hp & Hl & Hn & Ht).
  assert (running s1 = false) as Hrun by (unfold running; rewrite Hp; reflexivity).
  rewrite (start_kotlin_not_running s1 Hrun). unfold launch.
  rewrite Hn, Hl, Ht, Hp.
  destruct (create_subprocess_exec (launches s)); reflexivity.
Qed.

(** A failed launch: [start_kotlin] raises the error of
    [create_subprocess_exec] and leaves [proc], the lock and the log as they
    were; [send] raises the same error without taking the lock; and the next
    call makes a new attempt. *)
Theorem start_kotlin_launch_failure (fuel : nat) (q : str) (s : state W) (e : OSError) :
  running s = false ->
  create_subprocess_exec (launches s) = inl e ->
  let s' := mkState (proc s) (io_lock s) (stderr_task s) (S (launches s)) (log s) in
  start_kotlin s = (Raised (OSErr e), s')
  /\ send fuel q s = (Raised (OSErr e), s')
  /\ start_kotlin s' = launch s'.
Proof.
  intros Hrun Hboot. cbv zeta.
  assert (start_kotlin s
          = (Raised (OSErr e),
             mkState (proc s) (io_lock s) (stderr_task s) (S (launches s)) (log s))) as Hstart.
  { rewrite (start_kotlin_not_running s Hrun). unfold launch. rewrite Hboot. reflexivity. }
  split; [exact Hstart|]. split.
  - unfold send. unfold bind at 1. rewrite Hstart. reflexivity.
  - apply start_kotlin_not_running. exact Hrun.
Qed.

(** The lifecycle hooks in a row: a startup that launches a live child, then
    shutdown.  The child launched at startup is always asked to terminate,
    it is killed exactly when it has not exited within the 2 seconds, and
    when shutdown returns no process is bound. *)
Theorem startup_then_shutdown (s : state W) (w : W) :
  running s = false ->
  create_subprocess_exec (launches s) = inr w ->
  returncode w = None ->
  let started := EvCreateTask (launches s) :: EvSpawn (launches s) :: log s in
  let '(exited, w1) := wait_for_exit 2 (terminate w) in
  match exited with
  | Some code =>
      bind on_startup (fun _ => on_shutdown) s
      = (Returned tt,
         mkState None (io_lock s) (Some (launches s)) (S (launches s))
                 (EvWaitFor 2 (Some code) :: EvTerminate :: started))
  | None =>
      let '(killed, w2) := wait_exit (kill w1) in
      fst (bind on_startup (fun _ => on_shutdown) s)
      = match killed with Some _ => Returned tt | None => Pending end
      /\ log (snd (bind on_startup (fun _ => on_shutdown) s))
         = EvWait killed :: EvKill :: EvWaitFor 2 None :: EvTerminate :: started
      /\ (killed <> None -> proc (snd (bind on_startup (fun _ => on_shutdown) s)) = None)
  end.
Proof.
  intros Hrun Hboot Hrc. cbv zeta.
  assert (bind on_startup (fun _ => on_shutdown) s
          = stop_kotlin
              (mkState (Some w) (io_lock s) (Some (launches s)) (S (launches s))
                       (EvCreateTask (launches s) :: EvSpawn (launches s) :: log s))) as ->.
  { unfold on_startup, on_shutdown, bind.
    rewrite (start_kotlin_relaunch s w Hrun Hboot). reflexivity. }
  match goal with
  | |- context [stop_kotlin ?s1] => pose proof (stop_kotlin_cases s1) as Hc
  end.
  cbn [proc] in Hc. rewrite Hrc in Hc.
  destruct (wait_for_exit 2 (terminate w)) as [[code|] w1].
  - exact Hc.
  - destruct (wait_exit (kill w1)) as [[code|] w2]; rewrite Hc; cbn;
      repeat split; congruence.
Qed.

End SupervisorCycles.

(** ** The stderr drain *)

Section DrainFacts.
Context {E : Type} `{Stderr E}.

(** One turn of the loop of [_drain_stderr], by what [readline] does. *)
Lemma drain_stderr_step (fuel : nat) (e : E) :
  _drain_stderr (S fuel) e
  = match stderr_readline e with
    | (Line [], e') => (Returned tt, e')
    | (Line (_ :: _), e') => _drain_stderr fuel e'
    | (Fails x, e') => (Raised x, e')
    | (Blocks, e') => (Pending, e')
    end.
Proof.
  unfold _drain_stderr at 1. cbn [while_true_break].
  unfold bind at 1. unfold bind at 1. unfold p_stderr_readline at 1.
  destruct (stderr_readline e) as [[[|b l]|x|] e']; reflexivity.
Qed.

(** [_drain_stderr] reads and drops line after line and stops at the first
    read that is not a non-empty line: it returns at end-of-stream ([b'']),
    it propagates what [readline] raises, and it stays suspended while the
    stream is open and silent.  As long as lines keep coming it keeps
    running. *)
Theorem drain_stderr_stops_at_first_empty_read (e e1 : E) (ls : list bytes) :
  drains e ls e1 ->
  (forall fuel, fuel <= List.length ls -> fst (_drain_stderr fuel e) = Pending)
  /\ (forall fuel o e2,
        stderr_readline e1 = (o, e2) ->
        (forall b l, o <> Line (b :: l)) ->
        List.length ls < fuel ->
        _drain_stderr fuel e
        = (match o with
           | Line _ => Returned tt
           | Fails x => Raised x
           | Blocks => Pending
           end, e2)).
Proof.
  induction 1 as [e|e e1 e2 b l ls Hread _ [IHpending IHstop]]; split.
  - intros fuel Hfuel. cbn in Hfuel. assert (fuel = 0) as -> by lia. reflexivity.
  - intros fuel o e2 Hlast Ho Hfuel.
    destruct fuel as [|fuel]; [cbn in Hfuel; lia|].
    rewrite drain_stderr_step, Hlast.
    destruct o as [[|b l]|x|]; try reflexivity.
    exfalso. exact (Ho b l eq_refl).
  - intros fuel Hfuel. destruct fuel as [|fuel]; [reflexivity|].
    rewrite drain_stderr_step, Hread. apply IHpending. cbn in Hfuel. lia.
  - intros fuel o e3 Hlast Ho Hfuel.
    destruct fuel as [|fuel]; [cbn in Hfuel; lia|].
    rewrite drain_stderr_step, Hread.
    apply IHstop; [exact Hlast | exact Ho | cbn in Hfuel; lia].
Qed.

End DrainFacts.

(** A closed pipe holding two log lines is drained to the end. *)
Lemma drain_stderr_stops_at_first_empty_read_witness :
  (forall fuel, fuel <= 2 ->
     fst (@_drain_stderr _ pipe_stderr fuel (mkPipe [lit "warn" ++ [NEWLINE]; lit "x"] true))
     = Pending)
  /\ (forall fuel o e2,
        @stderr_readline _ pipe_stderr (mkPipe [] true) = (o, e2) ->
        (forall b l, o <> Line (b :: l)) ->
        2 < fuel ->
        @_drain_stderr _ pipe_stderr fuel (mkPipe [lit "warn" ++ [NEWLINE]; lit "x"] true)
        = (match o with
           | Line _ => Returned tt
           | Fails x => Raised x
           | Blocks => Pending
           end, e2)).
Proof.
  apply (@drain_stderr_stops_at_first_empty_read _ pipe_stderr
           (mkPipe [lit "warn" ++ [NEWLINE]; lit "x"] true) (mkPipe [] true)
           [lit "warn" ++ [NEWLINE]; lit "x"]).
  eapply drains_cons; [reflexivity|].
  eapply drains_cons; [reflexivity|].
  apply drains_nil.
Defined.

(** ** The codec: round trip and trailing newlines *)

Section CodecRoundTrip.
Local Open Scope Z_scope.

(** Bits that do not overlap add up. *)
Lemma lor_disjoint (k a x : Z) :
  0 <= k -> 0 <= x < 2 ^ k -> a mod 2 ^ k = 0 -> Z.lor a x = a + x.
Proof.
  intros Hk Hx Ha.
  assert (Z.land a x = 0) as Hland.
  { apply Z.bits_inj'. intros n Hn. rewrite Z.land_spec, Z.bits_0.
    destruct (Z.lt_ge_cases n k) as [Hlt|Hge].
    - rewrite <- (Z.mod_pow2_bits_low a k n) by lia. rewrite Ha, Z.bits_0. reflexivity.
    - rewrite <- (Z.mod_small x (2 ^ k)) by lia.
      rewrite Z.mod_pow2_bits_high by lia. apply andb_false_r. }
  rewrite (Z.add_nocarry_lxor a x Hland). symmetry. apply Z.lxor_lor. exact Hland.
Qed.

Lemma land_low6 (x : Z) : Z.land x 0x3F = x mod 64.
Proof. change 0x3F with (Z.ones 6). rewrite Z.land_ones by lia. reflexivity. Qed.

Lemma continuation_byte (x : Z) :
  Z.lor 0x80 (Z.land x 0x3F) = 0x80 + x mod 64.
Proof.
  rewrite land_low6. apply (lor_disjoint 6); [lia | | reflexivity].
  change (2 ^ 6) with 64. apply Z.mod_pos_bound. lia.
Qed.

Ltac euclid := Z.to_euclidean_division_equations; lia.

(** Settles the comparisons the decoder makes on bytes of known range. *)
Ltac settle_tests :=
  repeat match goal with
    | |- context [?a <? ?b] =>
        first [ rewrite (proj2 (Z.ltb_lt a b)) by euclid
              | rewrite (proj2 (Z.ltb_ge a b)) by euclid ]
    | |- context [?a <=? ?b] =>
        first [ rewrite (proj2 (Z.leb_le a b)) by euclid
              | rewrite (proj2 (Z.leb_gt a b)) by euclid ]
    | |- context [?a =? ?b] =>
        first [ rewrite (proj2 (Z.eqb_eq a b)) by euclid
              | rewrite (proj2 (Z.eqb_neq a b)) by euclid ]
    end.

(** Decoding undoes the encoding of one code point. *)
Lemma utf8_decode_encode_cp (ch : Z) (b rest : bytes) :
  utf8_encode_cp ch = Some b ->
  utf8_decode_replace (b ++ rest) = ch :: utf8_decode_replace rest.
Proof.
  unfold utf8_encode_cp.
  destruct (Z.ltb_spec ch 0); [discriminate|].
  destruct (Z.ltb_spec ch 0x80).
  { intros [= <-]. cbn [app utf8_decode_replace]. settle_tests. reflexivity. }
  destruct (Z.ltb_spec ch 0x800).
  { intros [= <-].
    rewrite continuation_byte, Z.shiftr_div_pow2 by lia.
    rewrite (lor_disjoint 6) by (try reflexivity; euclid).
    cbn [app utf8_decode_replace]. unfold is_continuation_byte.
    rewrite !Z.shiftl_mul_pow2 by lia. settle_tests. cbn [andb].
    f_equal. euclid. }
  destruct (Z.leb_spec 0xD800 ch); destruct (Z.leb_spec ch 0xDFFF); cbn [andb];
    try discriminate.
  - (* above the surrogates *)
    destruct (Z.ltb_spec ch 0x10000).
    + intros [= <-].
      rewrite !continuation_byte, !Z.shiftr_div_pow2 by lia.
      rewrite (lor_disjoint 5) by (try reflexivity; euclid).
      cbn [app utf8_decode_replace]. unfold is_continuation_byte.
      rewrite !Z.shiftl_mul_pow2 by lia.
      destruct (Z.ltb_spec (0x80 + (ch / 2 ^ 6) mod 64) 0xA0);
        settle_tests; cbn [andb negb orb]; f_equal; euclid.
    + destruct (Z.ltb_spec ch 0x110000); [|discriminate].
      intros [= <-].
      rewrite !continuation_byte, !Z.shiftr_div_pow2 by lia.
      rewrite (lor_disjoint 4) by (try reflexivity; euclid).
      cbn [app utf8_decode_replace]. unfold is_continuation_byte.
      rewrite !Z.shiftl_mul_pow2 by lia.
      destruct (Z.ltb_spec (0x80 + (ch / 2 ^ 12) mod 64) 0x90);
        settle_tests; cbn [andb negb orb]; f_equal; euclid.
  - (* below the surrogates *)
    assert (ch < 0x10000) as Hlt by lia.
    rewrite (proj2 (Z.ltb_lt ch 0x10000) Hlt).
    intros [= <-].
    rewrite !continuation_byte, !Z.shiftr_div_pow2 by lia.
    rewrite (lor_disjoint 5) by (try reflexivity; euclid).
    cbn [app utf8_decode_replace]. unfold is_continuation_byte.
    rewrite !Z.shiftl_mul_pow2 by lia.
    destruct (Z.ltb_spec (0x80 + (ch / 2 ^ 6) mod 64) 0xA0);
      settle_tests; cbn [andb negb orb]; f_equal; euclid.
  - lia.
Qed.

Lemma utf8_decode_encode_app (s : str) (b rest : bytes) :
  utf8_encode s = Some b ->
  utf8_decode_replace (b ++ rest) = (s ++ utf8_decode_replace rest)%list.
Proof.
  revert b. induction s as [|ch s IH]; intros b; cbn [utf8_encode].
  - intros [= <-]. reflexivity.
  - destruct (utf8_encode_cp ch) as [b1|] eqn:Hch; [|discriminate].
    destruct (utf8_encode s) as [bs|]; [|discriminate].
    intros [= <-]. rewrite <- app_assoc.
    rewrite (utf8_decode_encode_cp ch b1 _ Hch), (IH bs eq_refl). reflexivity.
Qed.

(** Round trip: whatever [encode("utf-8")] accepts, [decode("utf-8",
    errors="replace")] gives back unchanged -- no replacement character
    appears. *)
Theorem utf8_round_trip (s : str) (b : bytes) :
  utf8_encode s = Some b -> utf8_decode_replace b = s.
Proof.
  intros Henc.
  pose proof (utf8_decode_encode_app s b [] Henc) as Hrt.
  rewrite !app_nil_r in Hrt. exact Hrt.
Qed.

(** [rstrip("\\n")] removes a run of newlines at the end, the whole run and
    nothing else. *)
Lemma rstrip_newline_spec (s : str) :
  exists n : nat,
    s = (rstrip_newline s ++ replicate n NEWLINE)%list
    /\ last (rstrip_newline s) <> Some NEWLINE.
Proof.
  induction s as [|ch s (n & Hs & Hlast)].
  - exists 0%nat. split; [reflexivity | discriminate].
  - cbn [rstrip_newline].
    destruct (rstrip_newline s) as [|k kept] eqn:Hstrip.
    + destruct (Z.eqb_spec ch NEWLINE) as [->|Hne].
      * exists (S n). split; [cbn; rewrite Hs at 1; reflexivity | discriminate].
      * exists n. split; [cbn; rewrite Hs at 1; reflexivity|].
        cbn. intros [= Heq]. contradiction.
    + exists n. split; [cbn; rewrite Hs at 1; reflexivity|].
      rewrite last_cons_cons. exact Hlast.
Qed.

End CodecRoundTrip.

(** A string with two-, three- and four-byte code points. *)
Lemma utf8_round_trip_witness :
  utf8_decode_replace [104; 195; 169; 226; 130; 172; 240; 157; 132; 158; 10]%Z
  = [104; 233; 8364; 119070; 10]%Z.
Proof.
  exact (utf8_round_trip [104; 233; 8364; 119070; 10]%Z
           [104; 195; 169; 226; 130; 172; 240; 157; 132; 158; 10]%Z eq_refl).
Defined.

(** ** The response, in terms of what was read *)

Section Responses.
Context {W : Type} `{Worker W}.

Lemma received_app (newer older : list event) :
  received (newer ++ older) = received older ++ received newer.
Proof. unfold received. rewrite rev_app_distr, flat_map_app. reflexivity. Qed.

Lemma start_kotlin_log (s : state W) :
  exists pre, log (snd (start_kotlin s)) = pre ++ log s /\ received pre = [].
Proof.
  unfold start_kotlin, bind, gets, print, modify, launch.
  destruct (running s).
  - eexists [_]. split; reflexivity.
  - destruct (create_subprocess_exec (launches s)).
    + exists []. split; reflexivity.
    + eexists [_; _]. split; reflexivity.
Qed.

(** When the loop stops, the buffer holds what it held plus all that the
    loop read. *)
Lemma loop_received (fuel : nat) (b : bytes) (s : state W) (w : W)
      (e : exn) (l' : locals) (s' : state W) :
  proc s = Some w ->
  while_ fuel (ret true) loop_body (mkLocals (Some b), s) = (Raised e, (l', s')) ->
  exists evs, log s' = evs ++ log s /\ line l' = Some (b ++ received evs).
Proof.
  revert b s w. induction fuel as [|fuel IH]; intros b s w Hp; cbn [while_].
  - unfold pending. discriminate.
  - unfold bind at 1, ret at 1. unfold bind at 1.
    rewrite (loop_body_step b s w Hp).
    destruct (stdout_readline 5 w) as [[oe|more] w'].
    + intros [= <- <- <-]. eexists [_; _]. split; [reflexivity|].
      cbn. rewrite app_nil_r. reflexivity.
    + intros Hloop. apply (IH _ _ w') in Hloop; [|reflexivity].
      destruct Hloop as (evs & Hlog & Hline).
      exists (evs ++ [EvReadline 5 (inr more); EvPrintBytes b]). split.
      * rewrite Hlog. cbn. rewrite <- app_assoc. reflexivity.
      * rewrite Hline, received_app. cbn. rewrite app_nil_r, app_assoc. reflexivity.
Qed.

(** Every response of [send] is made of exactly what the call read from the
    child's stdout: all of it, in order, decoded, with the run of newlines
    at its end removed -- the whole run, so that the text never ends in a
    newline. *)
Theorem send_response_is_what_was_read (fuel : nat) (q : str) (s s' : state W)
        (r : response) :
  send fuel q s = (Returned r, s') ->
  exists (evs : list event) (n : nat),
    log s' = evs ++ log s
    /\ r = out_of (received evs)
    /\ utf8_decode_replace (received evs) = out r ++ replicate n NEWLINE
    /\ last (out r) <> Some NEWLINE.
Proof.
  intros Hsend.
  destruct (send_returned fuel q s r s' Hsend)
    as (s1 & s2 & b & older & Hstart & Hrun & Hlock & Htry & _ & -> & ->).
  destruct (start_kotlin_log s) as (pre & Hpre & Hprecv). rewrite Hstart in Hpre. cbn in Hpre.
  apply running_inv in Hrun as (w & Hw & _).
  assert (exists evs, log s2 = evs ++ log (acquired s1) /\ b = received evs)
    as (evs & Hlog & ->).
  { revert Htry.
    destruct (utf8_encode (q ++ [NEWLINE])) as [payload|] eqn:Henc;
      [|rewrite (send_try_unencodable fuel q _ Henc); discriminate].
    unfold send_try. unfold bind at 1.
    rewrite (write_query_step q payload _ (acquired s1) w Hw Henc).
    destruct (stdin_write_drain payload w) as [[oe|] w1]; [discriminate|].
    cbv zeta iota beta. unfold bind at 1.
    erewrite (first_read_step _ _ w1) by reflexivity.
    destruct (stdout_readline 5 w1) as [[oe|data] w2]; [discriminate|].
    cbv zeta iota beta. unfold bind at 1.
    match goal with
    | |- context [while_ fuel ?c ?bd (mkLocals (Some data), ?s3)] =>
        destruct (while_ fuel c bd (mkLocals (Some data), s3))
          as [[[]|e3|] [l3 s4]] eqn:Hloop
    end; [|intros [= -> -> ->]|discriminate].
    - exfalso. exact (loop_never_returns _ _ _ _ Hloop).
    - apply (loop_received fuel data _ w2) in Hloop; [|reflexivity].
      destruct Hloop as (evs & Hlog & [= ->]).
      exists (evs ++ [EvReadline 5 (inr data); EvWrite payload None]). split.
      + rewrite Hlog. cbn. rewrite <- app_assoc. reflexivity.
      + rewrite received_app. cbn. rewrite app_nil_r. reflexivity. }
  destruct (rstrip_newline_spec (utf8_decode_replace (received evs))) as (n & Hstrip & Hlast).
  assert (received (EvRelease :: evs ++ EvAcquire :: pre) = received evs) as Hrecv.
  { change (EvRelease :: evs ++ EvAcquire :: pre)
      with ([EvRelease] ++ evs ++ [EvAcquire] ++ pre).
    rewrite !received_app, Hprecv. cbn. rewrite app_nil_r. reflexivity. }
  exists (EvRelease :: evs ++ EvAcquire :: pre), n. rewrite Hrecv. repeat split.
  - cbn. rewrite Hlog. cbn. rewrite Hpre, <- app_assoc. reflexivity.
  - exact Hstrip.
  - exact Hlast.
Qed.

End Responses.

(** ** Exchanges with the stub child, for any query *)

Section StubExchanges.
Import Stub.
Local Open Scope Z_scope.

Lemma count_newlines_cons (b : Z) (bs : list Z) :
  count_newlines (b :: bs)
  = ((if Z.eqb b NEWLINE then 1 else 0) + count_newlines bs)%nat.
Proof. unfold count_newlines. cbn [List.filter]. destruct (b =? NEWLINE); reflexivity. Qed.

(** Bytes without a newline only extend the pending input line. *)
Lemma feed_no_newline (payload : bytes) (c : child) :
  exit_code c = None ->
  count_newlines payload = 0%nat ->
  feed payload c
  = mkChild (program c) (heeds_sigterm c) (stdin_partial c ++ payload)
            (stdout_buffer c) (stdout_eof c) (exit_code c).
Proof.
  revert c. induction payload as [|b payload IH]; intros c Hlive Hnl.
  - cbn. rewrite app_nil_r. destruct c; reflexivity.
  - rewrite count_newlines_cons in Hnl.
    destruct c as [prog heeds partial buf eof code]. cbn in Hlive. subst code.
    cbn [feed exited exit_code program heeds_sigterm stdin_partial stdout_buffer stdout_eof].
    destruct (b =? NEWLINE); [discriminate|].
    rewrite IH; [|reflexivity|exact Hnl]. cbn. rewrite <- app_assoc. reflexivity.
Qed.

Lemma feed_app (p1 p2 : bytes) (c : child) :
  feed (p1 ++ p2) c = feed p2 (feed p1 c).
Proof.
  revert c. induction p1 as [|b p1 IH]; intros c; [reflexivity|].
  cbn [app feed]. destruct (exited c) eqn:Hex.
  - destruct p2 as [|b2 p2]; [reflexivity|]. cbn [feed]. rewrite Hex. reflexivity.
  - destruct (b =? NEWLINE); apply IH.
Qed.

(** A whole line arrives: the child reacts to it once. *)
Lemma feed_line (input : bytes) (c : child) :
  exit_code c = None ->
  stdin_partial c = [] ->
  count_newlines input = 0%nat ->
  feed (input ++ [NEWLINE]) c
  = react (mkChild (program c) (heeds_sigterm c) input (stdout_buffer c)
                   (stdout_eof c) (exit_code c)).
Proof.
  intros Hlive Hpartial Hnl.
  rewrite feed_app, (feed_no_newline input c Hlive Hnl), Hpartial.
  destruct c as [prog heeds partial buf eof code]. cbn in Hlive. subst code.
  reflexivity.
Qed.

Lemma whole_lines_tail (b : Z) (buf : bytes) :
  whole_lines (b :: buf) -> whole_lines buf /\ (buf = [] -> b = NEWLINE).
Proof.
  intros [Hnil|[front Hfront]]; [discriminate|].
  destruct front as [|f front]; cbn in Hfront.
  - injection Hfront as -> ->. split; [left; reflexivity | reflexivity].
  - injection Hfront as -> ->. split; [right; exists front; reflexivity|].
    intros Hnil. destruct front; discriminate.
Qed.

(** A non-empty buffer of whole lines splits into its first line and a
    shorter buffer of whole lines. *)
Lemma split_line_whole (buf : bytes) :
  whole_lines buf -> buf <> [] ->
  exists l rest,
    split_line buf = Some (l, rest)
    /\ buf = (l ++ rest)%list
    /\ whole_lines rest
    /\ count_newlines buf = S (count_newlines rest)
    /\ (List.length rest < List.length buf)%nat.
Proof.
  induction buf as [|b buf IH]; intros Hwhole Hne; [contradiction|].
  apply whole_lines_tail in Hwhole as [Hwhole Hlast].
  cbn [split_line]. rewrite count_newlines_cons.
  destruct (Z.eqb_spec b NEWLINE) as [->|Hb].
  - exists [NEWLINE], buf. cbn. repeat split; auto.
  - assert (buf <> []) as Hbuf by (intros Hnil; apply Hb, Hlast, Hnil).
    destruct (IH Hwhole Hbuf) as (l & rest & -> & Hsplit & Hrest & Hcount & Hlen).
    exists (b :: l), rest. cbn. repeat split; auto.
    rewrite Hsplit at 1. reflexivity.
Qed.

(** Reading a buffer of whole lines to the end: as many [readline] calls as
    it has lines, returning all of it. *)
Lemma stub_reads_whole_lines (boot : nat -> OSError + child) (n : nat) :
  forall (c : child),
    (List.length (stdout_buffer c) <= n)%nat ->
    whole_lines (stdout_buffer c) ->
    exists ls,
      @reads _ (worker boot) c ls (set_stdout_buffer [] c)
      /\ concat ls = stdout_buffer c
      /\ List.length ls = count_newlines (stdout_buffer c).
Proof.
  induction n as [|n IH]; intros c Hlen Hwhole.
  - destruct (stdout_buffer c) eqn:Hbuf; [|cbn in Hlen; lia].
    exists []. split; [|split; reflexivity].
    replace (set_stdout_buffer [] c) with c; [apply reads_nil|].
    destruct c; cbn in *; subst; reflexivity.
  - destruct (stdout_buffer c) as [|b buf] eqn:Hbuf.
    + exists []. split; [|split; reflexivity].
      replace (set_stdout_buffer [] c) with c; [apply reads_nil|].
      destruct c; cbn in *; subst; reflexivity.
    + destruct (split_line_whole (b :: buf) Hwhole) as
        (l & rest & Hsplit & Heq & Hrest & Hcount & Hshort); [discriminate|].
      destruct (IH (set_stdout_buffer rest c)) as (ls & Hreads & Hconcat & Hn);
        [cbn in *; lia | exact Hrest |].
      exists (l :: ls). split; [|split].
      * eapply reads_cons; [|exact Hreads].
        cbn. unfold readline. rewrite Hbuf, Hsplit. reflexivity.
      * cbn. cbn in Hconcat. rewrite Hconcat. symmetry. exact Heq.
      * cbn. cbn in Hn. rewrite Hn. symmetry. exact Hcount.
Qed.

Lemma whole_lines_app (a b : bytes) :
  whole_lines a -> whole_lines b -> whole_lines (a ++ b).
Proof.
  intros Ha [->|[front ->]].
  - rewrite app_nil_r. exact Ha.
  - right. exists (a ++ front)%list. rewrite app_assoc. reflexivity.
Qed.

Lemma last_not_newline (x : list Z) :
  count_newlines x = 0%nat -> last x <> Some NEWLINE.
Proof.
  intros Hnl Hlast. apply last_Some in Hlast as [front ->].
  rewrite count_newlines_app in Hnl. cbn in Hnl. lia.
Qed.

(** [rstrip("\\n")] of a text that does not end in a newline, followed by
    newlines, is that text. *)
Lemma rstrip_newline_run (x : str) (n : nat) :
  last x <> Some NEWLINE -> rstrip_newline (x ++ replicate n NEWLINE) = x.
Proof.
  assert (rstrip_newline (replicate n NEWLINE) = []) as Hrun.
  { induction n as [|n IH]; [reflexivity|]. cbn. rewrite IH. reflexivity. }
  induction x as [|ch x IH]; intros Hlast; [exact Hrun|].
  cbn [app rstrip_newline].
  destruct x as [|ch2 x].
  - cbn [app]. rewrite Hrun.
    destruct (Z.eqb_spec ch NEWLINE) as [->|_]; [contradiction Hlast|]; reflexivity.
  - rewrite last_cons_cons in Hlast. rewrite (IH Hlast). reflexivity.
Qed.

(** The exchange with a live stub child whose stdout pipe still holds
    [stale]: the child reacts to the query line with [answer], and the reads
    return the pipe's whole content before the silence. *)
Lemma stub_exchange (boot : nat -> OSError + child) (fuel : nat) (q : str)
      (enc : bytes) (s : state child) (prog : bytes -> reaction) (heeds : bool)
      (stale answer : bytes) :
  proc s = Some (mkChild prog heeds [] stale false None) ->
  utf8_encode q = Some enc ->
  count_newlines q = 0%nat ->
  prog enc = mkReaction answer None ->
  whole_lines stale -> whole_lines answer ->
  (stale ++ answer)%list <> [] ->
  (count_newlines (stale ++ answer) <= fuel)%nat ->
  exists s',
    @exchange _ (worker boot) fuel q s = (Returned (out_of (stale ++ answer)), s')
    /\ proc s' = Some (fresh prog heeds)
    /\ launches s' = launches s.
Proof.
  intros Hp Henc Hnl Hprog Hstale Hanswer Hsome Hfuel.
  pose (c1 := mkChild prog heeds [] (stale ++ answer) false None).
  destruct (stub_reads_whole_lines boot (List.length (stale ++ answer)) c1)
    as (ls & Hreads & Hconcat & Hlen);
    [reflexivity | apply whole_lines_app; assumption |].
  change (stdout_buffer c1) with (stale ++ answer)%list in Hconcat, Hlen.
  destruct ls as [|first rest]; [cbn in Hconcat; congruence|].
  cbn [List.length] in Hlen.
  eexists. split.
  - rewrite <- Hconcat. cbn [concat].
    eapply (@exchange_timeout _ (worker boot) fuel q s (enc ++ [NEWLINE])
              _ c1 _ _ first rest Hp).
    + rewrite utf8_encode_line, Henc. reflexivity.
    + cbn. unfold write_drain. cbn [exited exit_code].
      rewrite feed_line;
        [|reflexivity|reflexivity|rewrite (utf8_encode_newlines q enc Henc); exact Hnl].
      cbn. unfold react. cbn. rewrite Hprog. reflexivity.
    + exact Hreads.
    + reflexivity.
    + lia.
  - split; reflexivity.
Qed.

(** The same for [send]: the lock is taken and released around it. *)
Lemma stub_send (boot : nat -> OSError + child) (fuel : nat) (q : str)
      (enc : bytes) (s : state child) (prog : bytes -> reaction) (heeds : bool)
      (stale answer : bytes) :
  proc s = Some (mkChild prog heeds [] stale false None) ->
  io_lock s = false ->
  utf8_encode q = Some enc ->
  count_newlines q = 0%nat ->
  prog enc = mkReaction answer None ->
  whole_lines stale -> whole_lines answer ->
  (stale ++ answer)%list <> [] ->
  (count_newlines (stale ++ answer) <= fuel)%nat ->
  exists s',
    @send _ (worker boot) fuel q s = (Returned (out_of (stale ++ answer)), s')
    /\ proc s' = Some (fresh prog heeds)
    /\ io_lock s' = false
    /\ launches s' = launches s.
Proof.
  intros Hp Hlock Henc Hnl Hprog Hstale Hanswer Hsome Hfuel.
  assert (@running _ (worker boot) s = true) as Hrun.
  { apply running_inv. eexists. split; [exact Hp | reflexivity]. }
  rewrite (@send_unfold _ (worker boot) fuel q s _
             (@start_kotlin_running _ (worker boot) s Hrun) Hrun Hlock).
  destruct (stub_exchange boot fuel q enc
              (acquired (emit (EvPrint "NO") s)) prog heeds stale answer)
    as (s2 & Hex & Hp2 & Hn2); try assumption.
  unfold try_finally. rewrite Hex.
  eexists. split; [reflexivity|]. split; [exact Hp2|]. split; [reflexivity|].
  exact Hn2.
Qed.

(** The response to a one-line answer ["ECHO:" + q + "\\n"]. *)
Lemma out_of_echo (q : str) (enc : bytes) :
  utf8_encode q = Some enc ->
  count_newlines q = 0%nat ->
  out_of (lit "ECHO:" ++ enc ++ [NEWLINE]) = mkResponse (lit "ECHO:" ++ q).
Proof.
  intros Henc Hnl. unfold out_of. f_equal.
  assert (utf8_encode (lit "ECHO:" ++ q ++ [NEWLINE])
          = Some (lit "ECHO:" ++ enc ++ [NEWLINE])%list) as Hline.
  { rewrite utf8_encode_app, utf8_encode_line, Henc. reflexivity. }
  pose proof (utf8_decode_encode_app _ _ [] Hline) as Hrt.
  rewrite !app_nil_r in Hrt. rewrite Hrt.
  change (lit "ECHO:" ++ q ++ [NEWLINE])%list
    with (lit "ECHO:" ++ q ++ replicate 1 NEWLINE)%list.
  rewrite app_assoc. apply rstrip_newline_run, last_not_newline.
  rewrite count_newlines_app, Hnl. reflexivity.
Qed.

(** What is still in the child's stdout pipe when [send] starts belongs to
    the response: a live stub child with the lines [stale] left unread that
    answers the query with the lines [answer] makes [send] return [stale]
    followed by [answer]; after the call the pipe is empty, the lock is free
    and the child is the same. *)
Theorem send_returns_leftover_output_first
        (boot : nat -> OSError + child) (fuel : nat) (q : str)
        (enc : bytes) (s : state child) (prog : bytes -> reaction) (heeds : bool)
        (stale answer : bytes) :
  proc s = Some (mkChild prog heeds [] stale false None) ->
  io_lock s = false ->
  utf8_encode q = Some enc ->
  count_newlines q = 0%nat ->
  prog enc = mkReaction answer None ->
  whole_lines stale -> whole_lines answer ->
  (stale ++ answer)%list <> [] ->
  (count_newlines (stale ++ answer) <= fuel)%nat ->
  exists s',
    @send _ (worker boot) fuel q s = (Returned (out_of (stale ++ answer)), s')
    /\ proc s' = Some (fresh prog heeds)
    /\ io_lock s' = false
    /\ launches s' = launches s.
Proof. apply stub_send. Qed.

(** Whatever the query -- any text that UTF-8 can encode and that holds no
    newline -- a child that echoes its input lines makes [send] return
    ["ECHO:" + q]: the text survives encoding, the pipes, decoding and the
    stripping unchanged, and the child is left idle for the next call. *)
Theorem send_echoes_any_query
        (boot : nat -> OSError + child) (fuel : nat) (q : str) (enc : bytes)
        (s : state child) (heeds : bool) :
  proc s = Some (fresh echo heeds) ->
  io_lock s = false ->
  utf8_encode q = Some enc ->
  count_newlines q = 0%nat ->
  (1 <= fuel)%nat ->
  exists s',
    @send _ (worker boot) fuel q s = (Returned (mkResponse (lit "ECHO:" ++ q)), s')
    /\ proc s' = Some (fresh echo heeds)
    /\ io_lock s' = false
    /\ launches s' = launches s.
Proof.
  intros Hp Hlock Henc Hnl Hfuel.
  rewrite <- (out_of_echo q enc Henc Hnl).
  apply (stub_send boot fuel q enc s echo heeds [] (lit "ECHO:" ++ enc ++ [NEWLINE]));
    try assumption; try reflexivity.
  - left. reflexivity.
  - right. exists (lit "ECHO:" ++ enc)%list. rewrite <- app_assoc. reflexivity.
  - discriminate.
  - cbn [app]. rewrite !count_newlines_app, (utf8_encode_newlines q enc Henc), Hnl.
    cbn. exact Hfuel.
Qed.

(** One query, one answer.  With a child that answers every input line with
    whole lines -- at least one, and no more than the loop is given turns --
    a client that sends its queries one after the other gets, for each
    query, the answer to that very query: nothing is left in the pipe
    between two calls, and the child and the launch count stay the same. *)
Theorem send_each_gets_its_own_answers
        (boot : nat -> OSError + child) (fuel : nat)
        (prog : bytes -> reaction) (heeds : bool) (qs : list str) (s : state child) :
  (forall input,
      count_newlines input = 0%nat ->
      then_exit (prog input) = None
      /\ whole_lines (reply (prog input))
      /\ reply (prog input) <> []
      /\ (count_newlines (reply (prog input)) <= fuel)%nat) ->
  Forall (fun q => utf8_encode q <> None /\ count_newlines q = 0%nat) qs ->
  proc s = Some (fresh prog heeds) ->
  io_lock s = false ->
  exists rs s',
    @send_each _ (worker boot) fuel qs s = (Returned rs, s')
    /\ Forall2 (fun q r => exists enc,
                    utf8_encode q = Some enc /\ r = out_of (reply (prog enc))) qs rs
    /\ proc s' = Some (fresh prog heeds)
    /\ io_lock s' = false
    /\ launches s' = launches s.
Proof.
  intros Hprog Hqs. revert s.
  induction Hqs as [|q qs [Hq Hnl] _ IH]; intros s Hp Hlock.
  - exists [], s. repeat split; auto.
  - destruct (utf8_encode q) as [enc|] eqn:Henc; [|contradiction].
    destruct (Hprog enc) as (Hexit & Hwhole & Hsome & Hturns).
    { rewrite (utf8_encode_newlines q enc Henc). exact Hnl. }
    destruct (stub_send boot fuel q enc s prog heeds [] (reply (prog enc)))
      as (s1 & Hsend & Hp1 & Hlock1 & Hn1); try assumption.
    { destruct (prog enc); cbn in *; subst; reflexivity. }
    { left. reflexivity. }
    destruct (IH s1 Hp1 Hlock1) as (rs & s2 & Hrest & Hall & Hp2 & Hlock2 & Hn2).
    exists (out_of (reply (prog enc)) :: rs), s2.
    cbn [send_each]. unfold bind at 1. rewrite Hsend.
    unfold bind at 1. rewrite Hrest. unfold ret.
    repeat split; auto.
    + constructor; [exists enc; auto | exact Hall].
    + congruence.
Qed.

End StubExchanges.

(** ** Two calls that both launch *)

Section LaunchRace.
Context {W : Type} `{Worker W}.
Import Loop.

(** [start_kotlin] tests [proc] and only then awaits the launch, with the
    event loop free to run another call in between.  Two calls of [send]
    that arrive while no child is running can therefore both pass the test:
    each launches a child.  The second launch replaces the first as [proc];
    the first child is never terminated, killed or waited for. *)
Theorem concurrent_sends_launch_two_children
        (q0 q1 : str) (p : option W) (n : nat) (w0 w1 : W) :
  running (mkState p false None n []) = false ->
  create_subprocess_exec n = inr w0 ->
  create_subprocess_exec (S n) = inr w1 ->
  let c := run [0; 1; 0; 1] (init [q0; q1] p n) in
  glob c = mkState (Some w1) false (Some (S n)) (S (S n))
                   [EvCreateTask (S n); EvSpawn (S n); EvCreateTask n; EvSpawn n]
  /\ tasks c = [mkTask q0 AtCheck; mkTask q1 AtCheck]
  /\ trace c = [(1, EvCreateTask (S n)); (1, EvSpawn (S n));
                (0, EvCreateTask n); (0, EvSpawn n)].
Proof.
  intros Hrun Hw0 Hw1.
  set (s0 := mkState p false None n []) in *.
  set (s1 := mkState (Some w0) false (Some n) (S n) [EvCreateTask n; EvSpawn n]).
  assert (step 0 (init [q0; q1] p n)
          = Some (mkConfig [mkTask q0 Launching; mkTask q1 AtStart] [] s0 [])) as H0.
  { unfold step, init. cbn [tasks lookup list_lookup map at_pc query glob waiters task_step].
    fold s0. rewrite Hrun. reflexivity. }
  assert (step 1 (mkConfig [mkTask q0 Launching; mkTask q1 AtStart] [] s0 [])
          = Some (mkConfig [mkTask q0 Launching; mkTask q1 Launching] [] s0 [])) as H1.
  { unfold step. cbn [tasks lookup list_lookup map at_pc query glob waiters task_step].
    rewrite Hrun. reflexivity. }
  assert (step 0 (mkConfig [mkTask q0 Launching; mkTask q1 Launching] [] s0 [])
          = Some (mkConfig [mkTask q0 AtCheck; mkTask q1 Launching] [] s1
                           [(0, EvCreateTask n); (0, EvSpawn n)])) as H2.
  { unfold step. cbn [tasks lookup list_lookup map at_pc query glob waiters task_step].
    unfold launch. cbn [launches s0]. rewrite Hw0. reflexivity. }
  assert (step 1 (mkConfig [mkTask q0 AtCheck; mkTask q1 Launching] [] s1
                           [(0, EvCreateTask n); (0, EvSpawn n)])
          = Some (mkConfig [mkTask q0 AtCheck; mkTask q1 AtCheck] []
                    (mkState (Some w1) false (Some (S n)) (S (S n))
                       [EvCreateTask (S n); EvSpawn (S n); EvCreateTask n; EvSpawn n])
                    [(1, EvCreateTask (S n)); (1, EvSpawn (S n));
                     (0, EvCreateTask n); (0, EvSpawn n)])) as H3.
  { unfold step. cbn [tasks lookup list_lookup map at_pc query glob waiters task_step].
    unfold launch. cbn [launches s1]. rewrite Hw1. reflexivity. }
  cbn [run]. rewrite H0, H1, H2, H3. repeat split.
Qed.
End LaunchRace.

(** ** Decoding never produces ill-formed text *)

Section CodecValidity.
Local Open Scope Z_scope.

Lemma utf8_decode_replace_scalar (n : nat) :
  forall bs : bytes,
    (List.length bs <= n)%nat ->
    Forall (fun b => 0 <= b < 256) bs ->
    Forall (fun ch => 0 <= ch < 0x110000 /\ ~ (0xD800 <= ch <= 0xDFFF))
           (utf8_decode_replace bs).
Proof.
  induction n as [|n IH]; intros bs Hlen Hbytes.
  { destruct bs; [constructor | cbn in Hlen; lia]. }
  assert (0 <= REPLACEMENT < 0x110000 /\ ~ (0xD800 <= REPLACEMENT <= 0xDFFF)) as Hrep
    by (unfold REPLACEMENT; lia).
  destruct bs as [|b1 r1]; [constructor|].
  apply Forall_cons in Hbytes as [Hb1 Hr1]. cbn [List.length] in Hlen.
  assert (Forall (fun ch => 0 <= ch < 0x110000 /\ ~ (0xD800 <= ch <= 0xDFFF))
                 (utf8_decode_replace r1)) as Hd1 by (apply IH; [lia | exact Hr1]).
  cbn [utf8_decode_replace].
  destruct (Z.ltb_spec b1 0x80); [constructor; [lia | exact Hd1]|].
  destruct (Z.ltb_spec b1 0xC2); [constructor; assumption|].
  destruct (Z.ltb_spec b1 0xE0).
  { destruct r1 as [|b2 r2]; [repeat constructor; apply Hrep|].
    apply Forall_cons in Hr1 as [Hb2 Hr2]. cbn [List.length] in Hlen.
    unfold is_continuation_byte.
    destruct (Z.leb_spec 0x80 b2), (Z.ltb_spec b2 0xC0); cbn [andb];
      try (constructor; assumption).
    constructor; [rewrite !Z.shiftl_mul_pow2 by lia; lia|].
    apply IH; [lia | exact Hr2]. }
  destruct (Z.ltb_spec b1 0xF0).
  { destruct r1 as [|b2 r2]; [repeat constructor; apply Hrep|].
    apply Forall_cons in Hr1 as [Hb2 Hr2]. cbn [List.length] in Hlen.
    assert (Forall (fun ch => 0 <= ch < 0x110000 /\ ~ (0xD800 <= ch <= 0xDFFF))
                   (utf8_decode_replace r2)) as Hd2 by (apply IH; [lia | exact Hr2]).
    unfold is_continuation_byte.
    destruct (Z.leb_spec 0x80 b2), (Z.ltb_spec b2 0xC0); cbn [andb negb orb];
      try (constructor; assumption).
    destruct (Z.ltb_spec b2 0xA0), (Z.eqb_spec b1 0xE0), (Z.eqb_spec b1 0xED);
      try (constructor; assumption); try lia.
    all: destruct r2 as [|b3 r3]; [repeat constructor; apply Hrep|].
    all: apply Forall_cons in Hr2 as [Hb3 Hr3]; cbn [List.length] in Hlen.
    all: destruct (Z.leb_spec 0x80 b3), (Z.ltb_spec b3 0xC0); cbn [andb];
      try (constructor; assumption).
    all: constructor; [rewrite !Z.shiftl_mul_pow2 by lia; lia|].
    all: apply IH; [lia | exact Hr3]. }
  destruct (Z.ltb_spec b1 0xF5); [|constructor; assumption].
  destruct r1 as [|b2 r2]; [repeat constructor; apply Hrep|].
  apply Forall_cons in Hr1 as [Hb2 Hr2]. cbn [List.length] in Hlen.
  assert (Forall (fun ch => 0 <= ch < 0x110000 /\ ~ (0xD800 <= ch <= 0xDFFF))
                 (utf8_decode_replace r2)) as Hd2 by (apply IH; [lia | exact Hr2]).
  unfold is_continuation_byte.
  destruct (Z.leb_spec 0x80 b2), (Z.ltb_spec b2 0xC0); cbn [andb negb orb];
    try (constructor; assumption).
  destruct (Z.ltb_spec b2 0x90), (Z.eqb_spec b1 0xF0), (Z.eqb_spec b1 0xF4);
    try (constructor; assumption); try lia.
  all: destruct r2 as [|b3 r3]; [repeat constructor; apply Hrep|].
  all: apply Forall_cons in Hr2 as [Hb3 Hr3]; cbn [List.length] in Hlen.
  all: assert (Forall (fun ch => 0 <= ch < 0x110000 /\ ~ (0xD800 <= ch <= 0xDFFF))
                 (utf8_decode_replace r3)) as Hd3 by (apply IH; [lia | exact Hr3]).
  all: destruct (Z.leb_spec 0x80 b3), (Z.ltb_spec b3 0xC0); cbn [andb negb];
    try (constructor; assumption).
  all: destruct r3 as [|b4 r4]; [repeat constructor; apply Hrep|].
  all: apply Forall_cons in Hr3 as [Hb4 Hr4]; cbn [List.length] in Hlen.
  all: destruct (Z.leb_spec 0x80 b4), (Z.ltb_spec b4 0xC0); cbn [andb];
    try (constructor; assumption).
  all: constructor; [rewrite !Z.shiftl_mul_pow2 by lia; lia|].
  all: apply IH; [lia | exact Hr4].
Qed.

Lemma utf8_encode_scalars (s : str) :
  Forall (fun ch => 0 <= ch < 0x110000 /\ ~ (0xD800 <= ch <= 0xDFFF)) s ->
  exists b, utf8_encode s = Some b.
Proof.
  induction 1 as [|ch s [Hrange Hsur] _ [bs IH]]; [exists []; reflexivity|].
  cbn [utf8_encode]. rewrite IH. unfold utf8_encode_cp.
  destruct (Z.ltb_spec ch 0); [lia|].
  destruct (ch <? 0x80); [eauto|].
  destruct (ch <? 0x800); [eauto|].
  destruct (Z.leb_spec 0xD800 ch), (Z.leb_spec ch 0xDFFF); cbn [andb]; try lia.
  all: destruct (ch <? 0x10000); [eauto|].
  all: destruct (Z.ltb_spec ch 0x110000); [eauto | lia].
Qed.

(** Whatever bytes the child writes, [decode("utf-8", errors="replace")]
    yields well-formed text: every code point is a Unicode scalar value (in
    range, no surrogate), so the text can be encoded again. *)
Theorem utf8_decode_replace_well_formed (bs : bytes) :
  Forall (fun b => 0 <= b < 256) bs ->
  Forall (fun ch => 0 <= ch < 0x110000 /\ ~ (0xD800 <= ch <= 0xDFFF))
         (utf8_decode_replace bs)
  /\ exists again, utf8_encode (utf8_decode_replace bs) = Some again.
Proof.
  intros Hbytes.
  pose proof (utf8_decode_replace_scalar (List.length bs) bs (le_n _) Hbytes) as Hwf.
  split; [exact Hwf | exact (utf8_encode_scalars _ Hwf)].
Qed.

End CodecValidity.

(** Stray, truncated, overlong and surrogate byte sequences. *)
Lemma utf8_decode_replace_well_formed_witness :
  Forall (fun ch => 0 <= ch < 0x110000 /\ ~ (0xD800 <= ch <= 0xDFFF))%Z
         (utf8_decode_replace [255; 195; 40; 237; 160; 128; 192; 175; 240; 159; 104]%Z)
  /\ exists again,
       utf8_encode (utf8_decode_replace [255; 195; 40; 237; 160; 128; 192; 175; 240; 159; 104]%Z)
       = Some again.
Proof.
  apply (utf8_decode_replace_well_formed
           [255; 195; 40; 237; 160; 128; 192; 175; 240; 159; 104]%Z).
  repeat constructor; lia.
Defined.

(** * Instances of the further properties *)

Section Instances.
Import Stub.
Local Open Scope string_scope.

(** A call answered by the echo child ends with the lock free. *)
Lemma send_releases_lock_witness :
  io_lock (snd (@send _ (launching echo) 1 (lit "hello") (serving (fresh echo true))))
  = false.
Proof.
  apply (@send_releases_lock _ (launching echo) 1 (lit "hello")
           (serving (fresh echo true))
           (snd (@send _ (launching echo) 1 (lit "hello") (serving (fresh echo true))))
           (fst (@send _ (launching echo) 1 (lit "hello") (serving (fresh echo true))))).
  - reflexivity.
  - apply surjective_pairing.
  - vm_compute. discriminate.
Defined.



(** One line arrives, then the connection is reset. *)
Lemma send_read_failure_witness :
  exists s',
    @send _ (scripted (fun _ => inl FileNotFoundError)) 1 (lit "hello")
          (mkState (Some [inr (lit "one" ++ [NEWLINE])%list; inl ConnectionResetError])
                   false None 1 [])
    = (Raised (OSErr ConnectionResetError), s')
    /\ io_lock s' = false
    /\ proc s' = Some [].
Proof.
  apply (@send_read_failure _ (scripted (fun _ => inl FileNotFoundError)) 1 (lit "hello")
           (mkState (Some [inr (lit "one" ++ [NEWLINE])%list; inl ConnectionResetError])
                    false None 1 [])
           (emit (EvPrint "NO")
              (mkState (Some [inr (lit "one" ++ [NEWLINE])%list; inl ConnectionResetError])
                       false None 1 []))
           (lit "hello" ++ [NEWLINE])%list
           [inr (lit "one" ++ [NEWLINE])%list; inl ConnectionResetError]
           [inr (lit "one" ++ [NEWLINE])%list; inl ConnectionResetError]
           [inl ConnectionResetError] []
           (lit "one" ++ [NEWLINE])%list [] ConnectionResetError);
    try reflexivity.
  - eapply reads_cons; [reflexivity | apply reads_nil].
  - discriminate.
  - apply Nat.lt_0_1.
Defined.

Lemma send_keeps_the_child_witness :
  launches (snd (@send _ (launching echo) 1 (lit "hello") (serving (fresh echo true)))) = 1
  /\ spawned (log (snd (@send _ (launching echo) 1 (lit "hello")
                          (serving (fresh echo true))))) = 1
  /\ stderr_task (snd (@send _ (launching echo) 1 (lit "hello")
                         (serving (fresh echo true)))) = Some 0
  /\ exists w', proc (snd (@send _ (launching echo) 1 (lit "hello")
                             (serving (fresh echo true)))) = Some w'.
Proof.
  exact (@send_keeps_the_child _ (launching echo) 1 (lit "hello")
           (serving (fresh echo true)) eq_refl).
Defined.

Lemma stop_kotlin_twice_witness :
  @stop_kotlin _ (launching echo)
     (mkState None false (Some 0) 1
        [EvWaitFor 2 (Some (-15)%Z); EvTerminate; EvCreateTask 0; EvSpawn 0])
  = (Returned tt,
     mkState None false (Some 0) 1
        [EvWaitFor 2 (Some (-15)%Z); EvTerminate; EvCreateTask 0; EvSpawn 0]).
Proof.
  exact (@stop_kotlin_twice _ (launching echo) (serving (fresh echo true)) _ eq_refl).
Defined.

Lemma start_kotlin_after_stop_witness :
  @start_kotlin _ (launching echo)
     (mkState None false (Some 0) 1
        [EvWaitFor 2 (Some (-15)%Z); EvTerminate; EvCreateTask 0; EvSpawn 0])
  = (Returned tt,
     mkState (Some (fresh echo true)) false (Some 1) 2
        [EvCreateTask 1; EvSpawn 1;
         EvWaitFor 2 (Some (-15)%Z); EvTerminate; EvCreateTask 0; EvSpawn 0]).
Proof.
  exact (@start_kotlin_after_stop _ (launching echo) (serving (fresh echo true)) _ eq_refl).
Defined.

(** The jar is missing. *)
Lemma start_kotlin_launch_failure_witness :
  @start_kotlin _ (worker (fun _ => inl FileNotFoundError)) at_import
  = (Raised (OSErr FileNotFoundError), mkState None false None 1 [])
  /\ @send _ (worker (fun _ => inl FileNotFoundError)) 1 (lit "hello") at_import
     = (Raised (OSErr FileNotFoundError), mkState None false None 1 [])
  /\ @start_kotlin _ (worker (fun _ => inl FileNotFoundError)) (mkState None false None 1 [])
     = @launch _ (worker (fun _ => inl FileNotFoundError)) (mkState None false None 1 []).
Proof.
  exact (@start_kotlin_launch_failure _ (worker (fun _ => inl FileNotFoundError))
           1 (lit "hello") at_import FileNotFoundError eq_refl eq_refl).
Defined.

Lemma startup_then_shutdown_witness :
  bind (@on_startup _ (launching echo)) (fun _ => @on_shutdown _ (launching echo)) at_import
  = (Returned tt,
     mkState None false (Some 0) 1
        [EvWaitFor 2 (Some (-15)%Z); EvTerminate; EvCreateTask 0; EvSpawn 0]).
Proof.
  exact (@startup_then_shutdown _ (launching echo) at_import (fresh echo true)
           eq_refl eq_refl eq_refl).
Defined.

Lemma send_response_is_what_was_read_witness :
  exists (evs : list event) (n : nat),
    log (snd (@send _ (launching echo) 1 (lit "hello") (serving (fresh echo true))))
    = (evs ++ [EvCreateTask 0; EvSpawn 0])%list
    /\ mkResponse (lit "ECHO:hello") = out_of (received evs)
    /\ utf8_decode_replace (received evs)
       = (lit "ECHO:hello" ++ replicate n NEWLINE)%list
    /\ last (lit "ECHO:hello") <> Some NEWLINE.
Proof.
  apply (@send_response_is_what_was_read _ (launching echo) 1 (lit "hello")
           (serving (fresh echo true))
           (snd (@send _ (launching echo) 1 (lit "hello") (serving (fresh echo true))))
           (mkResponse (lit "ECHO:hello"))).
  vm_compute. reflexivity.
Defined.

(** A line that arrived after an earlier call had given up. *)
Lemma send_returns_leftover_output_first_witness :
  exists s',
    @send _ (launching echo) 2 (lit "hi")
          (serving (mkChild echo true [] (lit "late" ++ [NEWLINE])%list false None))
    = (Returned (out_of ((lit "late" ++ [NEWLINE]) ++ lit "ECHO:hi" ++ [NEWLINE])%list), s')
    /\ proc s' = Some (fresh echo true)
    /\ io_lock s' = false
    /\ launches s' = 1.
Proof.
  apply (send_returns_leftover_output_first (fun _ => inr (fresh echo true)) 2 (lit "hi")
           (lit "hi")
           (serving (mkChild echo true [] (lit "late" ++ [NEWLINE])%list false None))
           echo true (lit "late" ++ [NEWLINE])%list (lit "ECHO:hi" ++ [NEWLINE])%list);
    try reflexivity.
  - right. exists (lit "late"). reflexivity.
  - right. exists (lit "ECHO:hi"). reflexivity.
  - discriminate.
Defined.

(** A query with two-, three- and four-byte code points. *)
Lemma send_echoes_any_query_witness :
  exists s',
    @send _ (launching echo) 1 [104; 233; 8364; 119070]%Z (serving (fresh echo true))
    = (Returned (mkResponse (lit "ECHO:" ++ [104; 233; 8364; 119070]%Z)%list), s')
    /\ proc s' = Some (fresh echo true)
    /\ io_lock s' = false
    /\ launches s' = 1.
Proof.
  apply (send_echoes_any_query (fun _ => inr (fresh echo true)) 1
           [104; 233; 8364; 119070]%Z
           [104; 195; 169; 226; 130; 172; 240; 157; 132; 158]%Z
           (serving (fresh echo true)) true);
    reflexivity.
Defined.

Lemma send_each_gets_its_own_answers_witness :
  exists rs s',
    @send_each _ (launching echo) 1 [lit "a"; lit "b"] (serving (fresh echo true))
    = (Returned rs, s')
    /\ Forall2 (fun q r => exists enc,
                    utf8_encode q = Some enc /\ r = out_of (reply (echo enc)))
               [lit "a"; lit "b"] rs
    /\ proc s' = Some (fresh echo true)
    /\ io_lock s' = false
    /\ launches s' = 1.
Proof.
  apply (send_each_gets_its_own_answers (fun _ => inr (fresh echo true)) 1 echo true
           [lit "a"; lit "b"] (serving (fresh echo true))).
  - intros input Hnl. split; [reflexivity|]. split; [|split].
    + right. exists (lit "ECHO:" ++ input)%list. apply List.app_assoc.
    + discriminate.
    + cbn [reply echo]. rewrite !count_newlines_app, Hnl. apply le_n.
  - repeat constructor; discriminate.
  - reflexivity.
  - reflexivity.
Defined.

(** Two first calls on a server whose startup launched nothing. *)
Lemma concurrent_sends_launch_two_children_witness :
  Loop.glob (@Loop.run _ (launching echo) [0; 1; 0; 1]
          (Loop.init [lit "a"; lit "b"] None 0))
  = mkState (Some (fresh echo true)) false (Some 1) 2
            [EvCreateTask 1; EvSpawn 1; EvCreateTask 0; EvSpawn 0]
  /\ Loop.tasks (@Loop.run _ (launching echo) [0; 1; 0; 1]
                   (Loop.init [lit "a"; lit "b"] None 0))
     = [Loop.mkTask (lit "a") Loop.AtCheck; Loop.mkTask (lit "b") Loop.AtCheck]
  /\ Loop.trace (@Loop.run _ (launching echo) [0; 1; 0; 1]
                   (Loop.init [lit "a"; lit "b"] None 0))
     = [(1, EvCreateTask 1); (1, EvSpawn 1); (0, EvCreateTask 0); (0, EvSpawn 0)].
Proof.
  exact (@concurrent_sends_launch_two_children _ (launching echo)
           (lit "a") (lit "b") None 0 (fresh echo true) (fresh echo true)
           eq_refl eq_refl eq_refl).
Defined.

End Instances.
